(** * A discretised Moebius strip: mesh, surface area and edge length

    Shallow embedding of [src/mobius_strip.py] (class [MobiusStrip]) and
    of the few NumPy operations it calls, followed by the properties the
    specification states about them.

    Numbers.  A Python [float] is idealised as a real number: [np.pi] is
    [PI], [np.cos], [np.sin], [np.sqrt] are the real functions, and no
    rounding, overflow, NaN or infinity is modelled.  Every statement
    below is therefore a statement in exact real arithmetic.  A Python
    [int] is a [Z].

    Arrays.  A one-dimensional [ndarray] is a [list] of reals, a
    two-dimensional one a list of rows.  Exceptions are values of the
    error monad [Py.result]; the methods of the class, which receive the
    object [self], are computations of a state-and-error monad over the
    record of its attributes. *)

From Stdlib Require Import Reals ZArith List Lia Lra Psatz.
Import ListNotations.

#[warning="-notation-for-abbreviation"]
Notation float := R (only parsing).

(** ** The Python layer: exceptions, indexing *)

Module Py.

(** The exceptions that matter here.  [IndexError] carries the
    offending index and the length of the axis, as NumPy's message
    does; [ValueError] is what [np.linspace] raises on a negative
    count.  [InvalidParameter] is the error the specification names;
    it is part of the type so that statements about it can be written,
    and no operation below ever builds it. *)
Inductive exn : Type :=
| IndexError (index : Z) (size : nat)
| ValueError
| InvalidParameter.

Inductive result (A : Type) : Type :=
| Ok (a : A)
| Raise (e : exn).
Arguments Ok {A} a.
Arguments Raise {A} e.

Definition bind {A B : Type} (m : result A) (k : A -> result B) : result B :=
  match m with
  | Ok a => k a
  | Raise e => Raise e
  end.

(** Position of index [i] inside a sequence of length [len]: Python
    counts a negative index from the end. *)
Definition normalize_index (i : Z) (len : nat) : option nat :=
  if (0 <=? i)%Z then
    if (i <? Z.of_nat len)%Z then Some (Z.to_nat i) else None
  else
    if (- Z.of_nat len <=? i)%Z then Some (Z.to_nat (Z.of_nat len + i)) else None.

(** [a[i]] on a one-dimensional array. *)
Definition getitem (a : list float) (i : Z) : result float :=
  match normalize_index i (length a) with
  | Some k => Ok (nth k a 0%R)
  | None => Raise (IndexError i (length a))
  end.

Fixpoint update (a : list float) (k : nat) (x : float) : list float :=
  match a, k with
  | [], _ => []
  | _ :: t, O => x :: t
  | h :: t, S k' => h :: update t k' x
  end.

(** [a[i] = x] on a one-dimensional array. *)
Definition setitem (a : list float) (i : Z) (x : float) : result (list float) :=
  match normalize_index i (length a) with
  | Some k => Ok (update a k x)
  | None => Raise (IndexError i (length a))
  end.

End Py.

Declare Scope result_scope.
Delimit Scope result_scope with result.
Notation "x <- m ;; k" := (Py.bind m (fun x => k))
  (at level 61, m at next level, right associativity) : result_scope.

(** ** The NumPy layer *)

Module np.

(** Elementwise operations and the full reduction, at every rank: a
    scalar is an array of rank 0, and a list of arrays of rank [k] is
    an array of rank [k+1].  The binary operation pairs the operands
    position by position; the class only ever combines arrays of one
    shape (see [meshgrid_grid] below), so NumPy's shape check and
    broadcasting between arrays never come into play. *)
Class NDArray (A : Type) : Type := {
  map : (float -> float) -> A -> A;
  zip : (float -> float -> float) -> A -> A -> A;
  sum : A -> float
}.

Fixpoint zip_with {A : Type} (f : A -> A -> A) (a b : list A) : list A :=
  match a, b with
  | x :: a', y :: b' => f x y :: zip_with f a' b'
  | _, _ => []
  end.

#[global] Instance rank0 : NDArray float := {|
  map f x := f x;
  zip f x y := f x y;
  sum x := x
|}.

#[global] Instance rank_succ (A : Type) `{NDArray A} : NDArray (list A) := {|
  map f a := List.map (map f) a;
  zip f a b := zip_with (zip f) a b;
  sum a := fold_right (fun x acc => (sum x + acc)%R) 0%R a
|}.

Definition pi : float := PI.

Definition cos {A} `{NDArray A} (a : A) : A := map Rtrigo_def.cos a.
Definition sin {A} `{NDArray A} (a : A) : A := map Rtrigo_def.sin a.
(** The argument of [np.sqrt] is a sum of squares wherever the class
    calls it, so the value NumPy gives to a negative argument is not
    needed. *)
Definition sqrt {A} `{NDArray A} (a : A) : A := map R_sqrt.sqrt a.

(** [np.arange(0, num)] as floats. *)
Definition arange (num : nat) : list float := List.map INR (seq 0 num).

(** [np.linspace(start, stop, num)] with the default [endpoint=True],
    following NumPy's implementation: the samples are
    [arange(0, num) * step + start] with [step = (stop - start) / (num - 1)],
    the last one is then overwritten with [stop]; a zero step takes
    the branch that divides first; fewer than two samples have no step
    and multiply by [delta]; a negative count raises [ValueError]. *)
Definition linspace (start stop : float) (num : Z) : Py.result (list float) :=
  if (num <? 0)%Z then Py.Raise Py.ValueError
  else
    let div := (num - 1)%Z in
    let delta := (stop - start)%R in
    let y := arange (Z.to_nat num) in
    let y :=
      if (0 <? div)%Z then
        let step := (delta / IZR div)%R in
        if Req_dec_T step 0 then
          map (fun x => x * delta)%R (map (fun x => x / IZR div)%R y)
        else
          map (fun x => x * step)%R y
      else
        map (fun x => x * delta)%R y in
    let y := map (fun x => x + start)%R y in
    if (1 <? num)%Z then Py.setitem y (-1) stop else Py.Ok y.

(** [np.meshgrid(x, y)] with the default [indexing='xy']: both results
    have one row per element of [y] and one column per element of [x]. *)
Definition meshgrid (x y : list float) : list (list float) * list (list float) :=
  (List.map (fun _ => x) y, List.map (fun yi => List.map (fun _ => yi) x) y).

End np.

(** Arithmetic on arrays, written as in the source: [+], [-], [*] and
    unary [-] between arrays of one shape, [**] with a literal exponent,
    and the dotted forms when one operand is a Python scalar. *)
Declare Scope nd_scope.
Delimit Scope nd_scope with nd.
Notation "a + b" := (np.zip Rplus a b) : nd_scope.
Notation "a - b" := (np.zip Rminus a b) : nd_scope.
Notation "a * b" := (np.zip Rmult a b) : nd_scope.
Notation "- a" := (np.map Ropp a) : nd_scope.
Notation "a ** k" := (np.map (fun x => pow x k) a)
  (at level 30, right associativity) : nd_scope.
Notation "r .+ a" := (np.map (fun x => Rplus r x) a)
  (at level 50, left associativity) : nd_scope.
Notation "r .* a" := (np.map (fun x => Rmult r x) a)
  (at level 40, left associativity) : nd_scope.
Notation "a ./ r" := (np.map (fun x => Rdiv x r) a)
  (at level 40, left associativity) : nd_scope.

(** ** The class [MobiusStrip] *)

(** The attributes of an instance.  [self_mesh] is [None] until
    [_generate_mesh] has stored the triple [(x, y, z)]. *)
Record MobiusStrip : Type := {
  self_R : float;
  self_w : float;
  self_n : Z;
  self_u : list float;
  self_v : list float;
  self_U : list (list float);
  self_V : list (list float);
  self_mesh : option (list (list float) * list (list float) * list (list float))
}.

(** A method body: it receives the object, may raise, and leaves the
    object in some state. *)
Definition method (A : Type) : Type := MobiusStrip -> Py.result A * MobiusStrip.

Definition ret {A : Type} (a : A) : method A := fun self => (Py.Ok a, self).

Definition mbind {A B : Type} (m : method A) (k : A -> method B) : method B :=
  fun self =>
    match m self with
    | (Py.Ok a, self') => k a self'
    | (Py.Raise e, self') => (Py.Raise e, self')
    end.

(** Reading the attributes of [self]. *)
Definition attr {A : Type} (field : MobiusStrip -> A) : method A :=
  fun self => (Py.Ok (field self), self).

(** An operation of the Python layer, which does not touch [self]. *)
Definition lift {A : Type} (r : Py.result A) : method A := fun self => (r, self).

(** [self.mesh = m]. *)
Definition set_mesh (m : list (list float) * list (list float) * list (list float))
  : method unit :=
  fun self =>
    (Py.Ok tt,
     {| self_R := self_R self; self_w := self_w self; self_n := self_n self;
        self_u := self_u self; self_v := self_v self;
        self_U := self_U self; self_V := self_V self;
        self_mesh := Some m |}).

Declare Scope method_scope.
Delimit Scope method_scope with method.
Notation "x <- m ;; k" := (mbind m (fun x => k))
  (at level 61, m at next level, right associativity) : method_scope.

Definition _generate_mesh : method unit :=
  (u <- attr self_U ;;
   v <- attr self_V ;;
   R <- attr self_R ;;
   let x := ((R .+ v * np.cos (u ./ 2)) * np.cos u)%nd in
   let y := ((R .+ v * np.cos (u ./ 2)) * np.sin u)%nd in
   let z := (v * np.sin (u ./ 2))%nd in
   set_mesh (x, y, z))%method.

(** [MobiusStrip(R, w, n)]: an exception of [np.linspace] aborts the
    construction; otherwise the attributes are set, [mesh] to [None]
    first, and the object is handed out once [_generate_mesh] has run. *)
Definition __init__ (R w : float) (n : Z) : Py.result MobiusStrip :=
  (u <- np.linspace 0 (2 * np.pi) n ;;
   v <- np.linspace (- w / 2) (w / 2) n ;;
   let '(U, V) := np.meshgrid u v in
   let self := {| self_R := R; self_w := w; self_n := n;
                  self_u := u; self_v := v; self_U := U; self_V := V;
                  self_mesh := None |} in
   match _generate_mesh self with
   | (Py.Ok _, self') => Py.Ok self'
   | (Py.Raise e, _) => Py.Raise e
   end)%result.

Definition compute_surface_area : method float :=
  (u <- attr self_U ;;
   v <- attr self_V ;;
   R <- attr self_R ;;
   let x_u := (- (R .+ v * np.cos (u ./ 2)) * np.sin u -
               (v ./ 2) * np.sin (u ./ 2) * np.cos u)%nd in
   let y_u := ((R .+ v * np.cos (u ./ 2)) * np.cos u -
               (v ./ 2) * np.sin (u ./ 2) * np.sin u)%nd in
   let z_u := ((v ./ 2) * np.cos (u ./ 2))%nd in
   let x_v := (np.cos (u ./ 2) * np.cos u)%nd in
   let y_v := (np.cos (u ./ 2) * np.sin u)%nd in
   let z_v := np.sin (u ./ 2)%nd in
   let integrand := np.sqrt ((y_u * z_v - z_u * y_v) ** 2 +
                             (z_u * x_v - x_u * z_v) ** 2 +
                             (x_u * y_v - y_u * x_v) ** 2)%nd in
   su <- attr self_u ;;
   u1 <- lift (Py.getitem su 1) ;;
   u0 <- lift (Py.getitem su 0) ;;
   let du := (u1 - u0)%R in
   sv <- attr self_v ;;
   v1 <- lift (Py.getitem sv 1) ;;
   v0 <- lift (Py.getitem sv 0) ;;
   let dv := (v1 - v0)%R in
   let area := (np.sum integrand * du * dv)%R in
   ret area)%method.

Definition compute_edge_length : method float :=
  (u <- attr self_u ;;
   R <- attr self_R ;;
   w <- attr self_w ;;
   let x := ((R .+ (w / 2)%R .* np.cos (u ./ 2)) * np.cos u)%nd in
   let y := ((R .+ (w / 2)%R .* np.cos (u ./ 2)) * np.sin u)%nd in
   let z := ((w / 2)%R .* np.sin (u ./ 2))%nd in
   let dx_du := (- (R .+ (w / 2)%R .* np.cos (u ./ 2)) * np.sin u -
                 (w / 4)%R .* np.sin (u ./ 2) * np.cos u)%nd in
   let dy_du := ((R .+ (w / 2)%R .* np.cos (u ./ 2)) * np.cos u -
                 (w / 4)%R .* np.sin (u ./ 2) * np.sin u)%nd in
   let dz_du := ((w / 4)%R .* np.cos (u ./ 2))%nd in
   let integrand := np.sqrt (dx_du ** 2 + dy_du ** 2 + dz_du ** 2)%nd in
   u1 <- lift (Py.getitem u 1) ;;
   u0 <- lift (Py.getitem u 0) ;;
   let du := (u1 - u0)%R in
   let length := (np.sum integrand * du)%R in
   ret length)%method.

(** ** The quantities the specification speaks of *)

Open Scope R_scope.

Definition vec3 : Type := (float * float * float)%type.

Definition vx (a : vec3) : float := fst (fst a).
Definition vy (a : vec3) : float := snd (fst a).
Definition vz (a : vec3) : float := snd a.

(** The position function of the parametrisation. *)
Definition position (R u v : float) : vec3 :=
  ((R + v * cos (u / 2)) * cos u,
   (R + v * cos (u / 2)) * sin u,
   v * sin (u / 2)).

(** Its partial derivatives in closed form.  The one along [v] has no
    argument for [R], nor for [v]. *)
Definition dP_du (R u v : float) : vec3 :=
  (- (R + v * cos (u / 2)) * sin u - (v / 2) * sin (u / 2) * cos u,
   (R + v * cos (u / 2)) * cos u - (v / 2) * sin (u / 2) * sin u,
   (v / 2) * cos (u / 2)).

Definition dP_dv (u : float) : vec3 :=
  (cos (u / 2) * cos u, cos (u / 2) * sin u, sin (u / 2)).

(** [d] is the derivative at [t0] of the curve [f], component by
    component. *)
Definition is_derivative3 (f : float -> vec3) (t0 : float) (d : vec3) : Prop :=
  derivable_pt_lim (fun t => vx (f t)) t0 (vx d) /\
  derivable_pt_lim (fun t => vy (f t)) t0 (vy d) /\
  derivable_pt_lim (fun t => vz (f t)) t0 (vz d).

Definition cross (a b : vec3) : vec3 :=
  (vy a * vz b - vz a * vy b,
   vz a * vx b - vx a * vz b,
   vx a * vy b - vy a * vx b).

Definition norm3 (a : vec3) : float :=
  sqrt (vx a ^ 2 + vy a ^ 2 + vz a ^ 2).

(** The area element of the surface and the speed along the curve
    [v = w/2]. *)
Definition area_element (R u v : float) : float :=
  norm3 (cross (dP_du R u v) (dP_dv u)).

Definition edge_speed (R w u : float) : float :=
  norm3 (dP_du R u (w / 2)).

(** [big_sum n f] is [f 0 + ... + f (n-1)]. *)
Fixpoint big_sum (n : nat) (f : nat -> float) : float :=
  match n with
  | O => 0
  | S k => big_sum k f + f k
  end.

(** The [i]-th of [n] equally spaced samples from [start] to [stop]. *)
Definition sample (start stop : float) (n : Z) (i : nat) : float :=
  start + INR i * ((stop - start) / IZR (n - 1)).

Definition u_at (n : Z) (i : nat) : float := sample 0 (2 * PI) n i.
Definition v_at (w : float) (n : Z) (j : nat) : float := sample (- w / 2) (w / 2) n j.

(** The parameters the specification calls valid. *)
Definition valid (R w : float) (n : Z) : Prop := 0 < R /\ 0 < w /\ (2 <= n)%Z.

(** Entry of a two-dimensional array at row [i], column [j]. *)
Definition entry (a : list (list float)) (i j : nat) : float := nth j (nth i a []) 0.

(** A two-dimensional array has [r] rows of [c] entries each. *)
Definition shape (a : list (list float)) (r c : nat) : Prop :=
  length a = r /\ Forall (fun row => length row = c) a.

(** The array whose entry in the row of [vj] and the column of [ui] is
    [f ui vj]. *)
Definition grid (us vs : list float) (f : float -> float -> float) : list (list float) :=
  List.map (fun vj => List.map (fun ui => f ui vj) us) vs.

(** A result-valued function of a positive parameter tends to [l] as the
    parameter tends to zero: close enough to zero, it returns, and its
    value is close to [l]. *)
Definition tends_to_at_0 (f : float -> Py.result float) (l : float) : Prop :=
  forall eps, 0 < eps ->
    exists delta, 0 < delta /\
      forall w, 0 < w < delta ->
        exists y, f w = Py.Ok y /\ Rabs (y - l) < eps.

(** The samples of a model of resolution [n] and width [w]. *)
Definition u_samples (n : Z) : list float := List.map (u_at n) (seq 0 (Z.to_nat n)).
Definition v_samples (w : float) (n : Z) : list float :=
  List.map (v_at w n) (seq 0 (Z.to_nat n)).

(** The two sums of the specification, over the samples in closed form:
    all [n * n] area elements times [du * dv], and all [n] speeds times
    [du], the steps being the differences of the first two samples. *)
Definition riemann_area (R w : float) (n : Z) : float :=
  big_sum (Z.to_nat n)
    (fun j => big_sum (Z.to_nat n)
       (fun i => area_element R (u_at n i) (v_at w n j))) *
  (u_at n 1 - u_at n 0) * (v_at w n 1 - v_at w n 0).

Definition riemann_length (R w : float) (n : Z) : float :=
  big_sum (Z.to_nat n) (fun i => edge_speed R w (u_at n i)) *
  (u_at n 1 - u_at n 0).

(** The object built over the samples [us] and [vs]: the sample grid is
    their cross product and the mesh holds the position at each of its
    points. *)
Definition instance (R w : float) (n : Z) (us vs : list float) : MobiusStrip :=
  {| self_R := R; self_w := w; self_n := n;
     self_u := us; self_v := vs;
     self_U := grid us vs (fun u _ => u);
     self_V := grid us vs (fun _ v => v);
     self_mesh := Some (grid us vs (fun u v => vx (position R u v)),
                        grid us vs (fun u v => vy (position R u v)),
                        grid us vs (fun u v => vz (position R u v))) |}.

(** Construct a model, then ask it for one of its two numbers. *)
Definition surface_area (R w : float) (n : Z) : Py.result float :=
  (self <- __init__ R w n ;; fst (compute_surface_area self))%result.

Definition edge_length (R w : float) (n : Z) : Py.result float :=
  (self <- __init__ R w n ;; fst (compute_edge_length self))%result.

(** A sequence of queries on one object: the list of what each call
    returned or raised, and the object after the last one. *)
Inductive query : Type := SurfaceArea | EdgeLength.

Definition call (q : query) : method float :=
  match q with
  | SurfaceArea => compute_surface_area
  | EdgeLength => compute_edge_length
  end.

Fixpoint run_queries (qs : list query) (self : MobiusStrip)
  : list (Py.result float) * MobiusStrip :=
  match qs with
  | [] => ([], self)
  | q :: qs' =>
      let (r, self') := call q self in
      let (rs, self'') := run_queries qs' self' in
      (r :: rs, self'')
  end.

(** ** What the specification states, as predicates on the parameters *)

(** The closed forms [dP_du] and [dP_dv] are the partial derivatives of
    the position function, whatever the radius. *)
Definition partials_of_position : Prop :=
  forall (R u v : float),
    is_derivative3 (fun t => position R t v) u (dP_du R u v) /\
    is_derivative3 (fun t => position R u t) v (dP_dv u).

(** Section 4.3: the area is the sum, over all [n * n] grid points, of
    the norm of the cross product of the two partial derivatives, times
    [du * dv]. *)
Definition area_is_sum_of_area_elements (R w : float) (n : Z) : Prop :=
  exists self,
    __init__ R w n = Py.Ok self /\
    let N := Z.to_nat n in
    let u := fun i => nth i (self_u self) 0 in
    let v := fun j => nth j (self_v self) 0 in
    let du := u 1%nat - u 0%nat in
    let dv := v 1%nat - v 0%nat in
    fst (compute_surface_area self) =
    Py.Ok (big_sum N (fun j => big_sum N (fun i =>
             norm3 (cross (dP_du R (u i) (v j)) (dP_dv (u i))))) * du * dv).

(** Section 4.4: the length is the sum, over all [n] angular samples, of
    the norm of the derivative of the curve [v = w/2], times [du]. *)
Definition length_is_sum_of_speeds (R w : float) (n : Z) : Prop :=
  exists self,
    __init__ R w n = Py.Ok self /\
    let N := Z.to_nat n in
    let u := fun i => nth i (self_u self) 0 in
    let du := u 1%nat - u 0%nat in
    fst (compute_edge_length self) =
    Py.Ok (big_sum N (fun i => norm3 (dP_du R (u i) (w / 2))) * du).

(** Section 4.2: the stored mesh holds the position at every pair of
    samples, and every pair sits in exactly one cell of the sample grid. *)
Definition mesh_is_position_grid (R w : float) (n : Z) : Prop :=
  exists self X Y Z,
    __init__ R w n = Py.Ok self /\
    self_mesh self = Some (X, Y, Z) /\
    let N := Z.to_nat n in
    let u := fun i => nth i (self_u self) 0 in
    let v := fun j => nth j (self_v self) 0 in
    shape X N N /\ shape Y N N /\ shape Z N N /\
    (forall i j, (i < N)%nat -> (j < N)%nat ->
       entry X j i = (R + v j * cos (u i / 2)) * cos (u i) /\
       entry Y j i = (R + v j * cos (u i / 2)) * sin (u i) /\
       entry Z j i = v j * sin (u i / 2)) /\
    (forall i j r c, (i < N)%nat -> (j < N)%nat -> (r < N)%nat -> (c < N)%nat ->
       (entry (self_U self) r c = u i /\ entry (self_V self) r c = v j) <->
       (r = j /\ c = i)).

(** Section 8, closure: the column of [u = 2 pi] at [v_j] is the
    position at [u = 0] and [- v_j], which is the column of [u = 0] at
    the mirrored width sample. *)
Definition mesh_closes_with_a_flip (R w : float) (n : Z) : Prop :=
  exists self X Y Z,
    __init__ R w n = Py.Ok self /\
    self_mesh self = Some (X, Y, Z) /\
    let N := Z.to_nat n in
    let u := fun i => nth i (self_u self) 0 in
    let v := fun j => nth j (self_v self) 0 in
    let P := fun r c => (entry X r c, entry Y r c, entry Z r c) in
    u 0%nat = 0 /\ u (N - 1)%nat = 2 * PI /\
    forall j, (j < N)%nat ->
      P j (N - 1)%nat = position R 0 (- v j) /\
      v (N - 1 - j)%nat = - v j /\
      P j (N - 1)%nat = P (N - 1 - j)%nat 0%nat.

(** Section 8, scale law. *)
Definition scale_law (k R w : float) (n : Z) : Prop :=
  exists a l,
    surface_area R w n = Py.Ok a /\
    edge_length R w n = Py.Ok l /\
    surface_area (k * R) (k * w) n = Py.Ok (k ^ 2 * a) /\
    edge_length (k * R) (k * w) n = Py.Ok (k * l).

(** Section 8, shapes and endpoints. *)
Definition grid_invariants (R w : float) (n : Z) : Prop :=
  exists self X Y Z,
    __init__ R w n = Py.Ok self /\
    self_mesh self = Some (X, Y, Z) /\
    let N := Z.to_nat n in
    let u := fun i => nth i (self_u self) 0 in
    let v := fun j => nth j (self_v self) 0 in
    length (self_u self) = N /\ length (self_v self) = N /\
    u 0%nat = 0 /\ u (N - 1)%nat = 2 * PI /\
    (forall i, (S i < N)%nat -> u (S i) - u i = 2 * PI / IZR (n - 1)) /\
    v 0%nat = - w / 2 /\ v (N - 1)%nat = w / 2 /\
    shape (self_U self) N N /\ shape (self_V self) N N /\
    shape X N N /\ shape Y N N /\ shape Z N N.

(** Section 6: any sequence of the two queries returns the same two
    numbers every time and hands the object back as it was. *)
Definition queries_are_pure (R w : float) (n : Z) : Prop :=
  exists self a l,
    __init__ R w n = Py.Ok self /\
    forall qs,
      run_queries qs self =
      (List.map (fun q => Py.Ok match q with SurfaceArea => a | EdgeLength => l end) qs,
       self).

(** Both queries fail on reading [u[1]], and leave the object alone. *)
Definition queries_raise_IndexError (n : Z) (self : MobiusStrip) : Prop :=
  compute_surface_area self = (Py.Raise (Py.IndexError 1 (Z.to_nat n)), self) /\
  compute_edge_length self = (Py.Raise (Py.IndexError 1 (Z.to_nat n)), self).

(** The constructor as it is: any non-negative count builds an object,
    and a count below two only shows at the first query. *)
Definition constructor_does_not_validate (R w : float) (n : Z) : Prop :=
  exists self,
    __init__ R w n = Py.Ok self /\
    ((n < 2)%Z -> queries_raise_IndexError n self).

(** A count below two is never answered with [InvalidParameter]: zero
    and one build an object whose queries raise [IndexError], and a
    negative count stops in [np.linspace] with [ValueError]. *)
Definition small_count_behaviour (R w : float) (n : Z) : Prop :=
  __init__ R w n <> Py.Raise Py.InvalidParameter /\
  ((0 <= n)%Z ->
   exists self, __init__ R w n = Py.Ok self /\ queries_raise_IndexError n self) /\
  ((n < 0)%Z -> __init__ R w n = Py.Raise Py.ValueError).

(** Section 8, degenerate width, with the limit of the length the sum
    has for a fixed [n]. *)
Definition thin_strip_limits (R : float) (n : Z) : Prop :=
  tends_to_at_0 (fun w => surface_area R w n) 0 /\
  tends_to_at_0 (fun w => edge_length R w n) (2 * PI * R * (IZR n / IZR (n - 1))).

(** ** Further statements about the class *)

Definition dot (a b : vec3) : float := vx a * vx b + vy a * vy b + vz a * vz b.

(** What every object handed out by the constructor satisfies, valid
    parameters or not: the three parameters are stored as given, the
    mesh is set, [u] and [v] have [n] samples and the five grids have
    [n] rows of [n] entries. *)
Definition construction_invariant (R w : float) (n : Z) : Prop :=
  exists self X Y Z,
    __init__ R w n = Py.Ok self /\
    self_R self = R /\ self_w self = w /\ self_n self = n /\
    self_mesh self = Some (X, Y, Z) /\
    let N := Z.to_nat n in
    length (self_u self) = N /\ length (self_v self) = N /\
    shape (self_U self) N N /\ shape (self_V self) N N /\
    shape X N N /\ shape Y N N /\ shape Z N N.



(** The samples of a constructed object increase strictly. *)
Definition samples_increase (R w : float) (n : Z) : Prop :=
  exists self,
    __init__ R w n = Py.Ok self /\
    forall i j, (i < j)%nat -> (j < Z.to_nat n)%nat ->
      nth i (self_u self) 0 < nth j (self_u self) 0 /\
      nth i (self_v self) 0 < nth j (self_v self) 0.

(** The half twist: one turn of the angle flips the width coordinate,
    two turns give the same point. *)
Definition half_twist : Prop :=
  forall (R u v : float),
    position R (u + 2 * PI) v = position R u (- v) /\
    position R (u + 4 * PI) v = position R u v.

(** The stored mesh is carried into itself by the half turn about the
    x-axis: reversing both index orders keeps [X] and negates [Y], [Z]. *)
Definition mesh_has_half_turn_symmetry (R w : float) (n : Z) : Prop :=
  exists self X Y Z,
    __init__ R w n = Py.Ok self /\
    self_mesh self = Some (X, Y, Z) /\
    let N := Z.to_nat n in
    forall i j, (i < N)%nat -> (j < N)%nat ->
      entry X (N - 1 - j) (N - 1 - i) = entry X j i /\
      entry Y (N - 1 - j) (N - 1 - i) = - entry Y j i /\
      entry Z (N - 1 - j) (N - 1 - i) = - entry Z j i.

(** Every vertex of the stored mesh lies at distance [|v_j|], hence at
    most [w / 2], from the circle of radius [R] in the plane [z = 0]. *)
Definition mesh_hugs_centre_circle (R w : float) (n : Z) : Prop :=
  exists self X Y Z,
    __init__ R w n = Py.Ok self /\
    self_mesh self = Some (X, Y, Z) /\
    let N := Z.to_nat n in
    forall i j, (i < N)%nat -> (j < N)%nat ->
      let vj := nth j (self_v self) 0 in
      (sqrt (entry X j i ^ 2 + entry Y j i ^ 2) - R) ^ 2 + entry Z j i ^ 2 = vj ^ 2 /\
      vj ^ 2 <= (w / 2) ^ 2.

(** With an odd count [n = 2 m + 1] the middle width sample is [0] and
    the middle row of the mesh is the circle of radius [R]. *)
Definition mesh_midline_is_circle (R w : float) (n : Z) (m : nat) : Prop :=
  exists self X Y Z,
    __init__ R w n = Py.Ok self /\
    self_mesh self = Some (X, Y, Z) /\
    nth m (self_v self) 0 = 0 /\
    forall i, (i < Z.to_nat n)%nat ->
      let ui := nth i (self_u self) 0 in
      entry X m i = R * cos ui /\ entry Y m i = R * sin ui /\ entry Z m i = 0.

(** The tangent along [v] is a unit vector orthogonal to the tangent
    along [u], so the area element is the length of the latter. *)
Definition tangent_frame : Prop :=
  forall (R u v : float),
    dot (dP_dv u) (dP_dv u) = 1 /\
    dot (dP_du R u v) (dP_dv u) = 0 /\
    norm3 (cross (dP_du R u v) (dP_dv u)) = norm3 (dP_du R u v).

(** The surface area as a sum of square roots of two squares. *)
Definition area_closed_form (R w : float) (n : Z) : Prop :=
  surface_area R w n =
  Py.Ok (big_sum (Z.to_nat n) (fun j => big_sum (Z.to_nat n) (fun i =>
           sqrt ((R + v_at w n j * cos (u_at n i / 2)) ^ 2 + (v_at w n j / 2) ^ 2))) *
         (2 * PI / IZR (n - 1)) * (w / IZR (n - 1))).

(** How far the two numbers are from those of a flat band of radius
    [R], counted with the [n] samples per axis of the sums. *)
Definition area_near_band (R w : float) (n : Z) : Prop :=
  exists a,
    surface_area R w n = Py.Ok a /\
    Rabs (a - 2 * PI * R * w * (IZR n / IZR (n - 1)) ^ 2) <=
    3 / 4 * w * (2 * PI * w * (IZR n / IZR (n - 1)) ^ 2).

Definition length_near_circle (R w : float) (n : Z) : Prop :=
  exists l,
    edge_length R w n = Py.Ok l /\
    Rabs (l - 2 * PI * R * (IZR n / IZR (n - 1))) <=
    3 / 4 * Rabs w * (2 * PI * (IZR n / IZR (n - 1))).

(** A strip of no width. *)
Definition zero_width_values (R : float) (n : Z) : Prop :=
  surface_area R 0 n = Py.Ok 0 /\
  edge_length R 0 n = Py.Ok (2 * PI * Rabs R * (IZR n / IZR (n - 1))).

(** Negating the width negates the area and keeps the length. *)
Definition width_sign_flip (R w : float) (n : Z) : Prop :=
  exists a l,
    surface_area R w n = Py.Ok a /\
    surface_area R (- w) n = Py.Ok (- a) /\
    edge_length R w n = Py.Ok l /\
    edge_length R (- w) n = Py.Ok l.

Definition results_nonnegative (R w : float) (n : Z) : Prop :=
  exists a l,
    surface_area R w n = Py.Ok a /\ 0 <= a /\
    edge_length R w n = Py.Ok l /\ 0 <= l.

(** The edge length is the sum of the area elements along the last row
    of the grid, the row of [v = w/2], times [du]. *)
Definition length_is_last_row_of_area (R w : float) (n : Z) : Prop :=
  exists self,
    __init__ R w n = Py.Ok self /\
    let N := Z.to_nat n in
    let u := fun i => nth i (self_u self) 0 in
    let v := fun j => nth j (self_v self) 0 in
    fst (compute_edge_length self) =
    Py.Ok (big_sum N (fun i =>
             norm3 (cross (dP_du R (u i) (v (N - 1)%nat)) (dP_dv (u i)))) *
           (u 1%nat - u 0%nat)).

(** The objects built with no sample and with one sample. *)
Definition degenerate_models (R w : float) : Prop :=
  (exists self,
     __init__ R w 0 = Py.Ok self /\
     self_u self = [] /\ self_v self = [] /\
     self_U self = [] /\ self_V self = [] /\
     self_mesh self = Some ([], [], [])) /\
  (exists self,
     __init__ R w 1 = Py.Ok self /\
     self_u self = [0] /\ self_v self = [- w / 2] /\
     self_U self = [[0]] /\ self_V self = [[- w / 2]] /\
     self_mesh self = Some ([[R - w / 2]], [[0]], [[0]])).

(** With fewer than two samples every query of any sequence raises the
    same [IndexError], and the object stays as it was. *)
Definition queries_keep_failing (R w : float) (n : Z) : Prop :=
  exists self,
    __init__ R w n = Py.Ok self /\
    forall qs,
      run_queries qs self =
      (List.map (fun _ => Py.Raise (Py.IndexError 1 (Z.to_nat n))) qs, self).

(** The scale law for a factor of any sign. *)
Definition signed_scale_law (k R w : float) (n : Z) : Prop :=
  exists a l,
    surface_area R w n = Py.Ok a /\
    edge_length R w n = Py.Ok l /\
    surface_area (k * R) (k * w) n = Py.Ok (k * Rabs k * a) /\
    edge_length (k * R) (k * w) n = Py.Ok (Rabs k * l).

(** * Properties *)

(** ** Lists, sums and indices *)

Lemma big_sum_ext n f g :
  (forall i, (i < n)%nat -> f i = g i) -> big_sum n f = big_sum n g.
Proof.
  induction n as [|n IH]; intros H; simpl; [reflexivity|].
  rewrite IH by (intros; apply H; lia). rewrite H by lia. reflexivity.
Qed.

Lemma big_sum_shift n f :
  big_sum (S n) f = f O + big_sum n (fun i => f (S i)).
Proof.
  induction n as [|n IH]; simpl in *; [ring|]. rewrite IH. ring.
Qed.

Lemma big_sum_scal n k f :
  big_sum n (fun i => k * f i) = k * big_sum n f.
Proof. induction n as [|n IH]; simpl; [ring|]. rewrite IH. ring. Qed.

Lemma big_sum_const n c : big_sum n (fun _ => c) = INR n * c.
Proof.
  induction n as [|n IH]; [simpl; ring|].
  rewrite S_INR. simpl. rewrite IH. ring.
Qed.

Lemma big_sum_minus n f g :
  big_sum n f - big_sum n g = big_sum n (fun i => f i - g i).
Proof. induction n as [|n IH]; simpl; [ring|]. rewrite <- IH. ring. Qed.

Lemma big_sum_le n f g :
  (forall i, (i < n)%nat -> f i <= g i) -> big_sum n f <= big_sum n g.
Proof.
  induction n as [|n IH]; intros H; simpl; [lra|].
  assert (big_sum n f <= big_sum n g) by (apply IH; intros; apply H; lia).
  assert (f n <= g n) by (apply H; lia). lra.
Qed.

Lemma big_sum_Rabs n f : Rabs (big_sum n f) <= big_sum n (fun i => Rabs (f i)).
Proof.
  induction n as [|n IH]; simpl.
  - rewrite Rabs_R0. lra.
  - eapply Rle_trans; [apply Rabs_triang|]. lra.
Qed.

Lemma sum_map_big_sum (f : float -> float) (l : list float) :
  np.sum (List.map f l) = big_sum (length l) (fun i => f (nth i l 0)).
Proof.
  induction l as [|x l IH]; [reflexivity|].
  cbn [length]. rewrite big_sum_shift. cbn [nth].
  rewrite <- IH. reflexivity.
Qed.

Lemma sum_grid_big_sum us vs f :
  np.sum (grid us vs f) =
  big_sum (length vs)
    (fun j => big_sum (length us) (fun i => f (nth i us 0) (nth j vs 0))).
Proof.
  unfold grid. induction vs as [|y vs IH]; [reflexivity|].
  cbn [length]. rewrite big_sum_shift. cbn [nth].
  rewrite <- IH. cbn [List.map]. 
  change (np.sum (List.map (fun ui => f ui y) us) +
          np.sum (List.map (fun vj => List.map (fun ui => f ui vj) us) vs) = 
          big_sum (length us) (fun i => f (nth i us 0) y) +
          np.sum (List.map (fun vj => List.map (fun ui => f ui vj) us) vs)).
  rewrite sum_map_big_sum. reflexivity.
Qed.

(** ** Elementwise operations on arrays built over the same samples *)

Lemma zip_with_map {A B : Type} (op : B -> B -> B) (f g : A -> B) (l : list A) :
  np.zip_with op (List.map f l) (List.map g l) = List.map (fun x => op (f x) (g x)) l.
Proof. induction l as [|x l IH]; cbn; [reflexivity|]. rewrite IH. reflexivity. Qed.

Section Samples.

Variables us vs : list float.

Lemma map_vector h : np.map h us = List.map h us.
Proof. reflexivity. Qed.

Lemma zip_vector op (f g : float -> float) :
  np.zip op (List.map f us) (List.map g us) = List.map (fun x => op (f x) (g x)) us.
Proof. cbn. apply zip_with_map. Qed.

Lemma map_grid h f :
  np.map h (grid us vs f) = grid us vs (fun u v => h (f u v)).
Proof.
  unfold grid. cbn. rewrite map_map. apply map_ext. intros vj. apply map_map.
Qed.

Lemma zip_grid op f g :
  np.zip op (grid us vs f) (grid us vs g) = grid us vs (fun u v => op (f u v) (g u v)).
Proof.
  unfold grid. cbn. rewrite zip_with_map. apply map_ext. intros vj.
  apply zip_with_map.
Qed.

Lemma meshgrid_grid :
  np.meshgrid us vs = (grid us vs (fun u _ => u), grid us vs (fun _ v => v)).
Proof.
  unfold np.meshgrid, grid. f_equal.
  apply map_ext. intros _. symmetry. apply map_id.
Qed.

Lemma grid_shape f : shape (grid us vs f) (length vs) (length us).
Proof.
  unfold shape, grid. split; [apply length_map|].
  apply Forall_forall. intros row Hrow. apply in_map_iff in Hrow.
  destruct Hrow as [vj [<- _]]. apply length_map.
Qed.

Lemma grid_entry f i j :
  (i < length vs)%nat -> (j < length us)%nat ->
  entry (grid us vs f) i j = f (nth j us 0) (nth i vs 0).
Proof.
  intros Hi Hj. unfold entry, grid.
  rewrite (nth_indep _ [] (List.map (fun ui => f ui 0) us)) by (rewrite length_map; exact Hi).
  rewrite (map_nth (fun vj => List.map (fun ui => f ui vj) us) vs 0 i).
  rewrite (nth_indep _ 0 (f 0 (nth i vs 0))) by (rewrite length_map; exact Hj).
  apply (map_nth (fun ui => f ui (nth i vs 0)) us 0 j).
Qed.

End Samples.

Create Rewrite HintDb nd.
#[local] Hint Rewrite map_vector map_map zip_vector map_grid zip_grid : nd.

(** ** Indexing *)

Lemma getitem_in_range (a : list float) (k : nat) :
  (k < length a)%nat -> Py.getitem a (Z.of_nat k) = Py.Ok (nth k a 0).
Proof.
  intros Hk. unfold Py.getitem, Py.normalize_index.
  destruct (Z.leb_spec 0 (Z.of_nat k)); [|lia].
  destruct (Z.ltb_spec (Z.of_nat k) (Z.of_nat (length a))); [|lia].
  rewrite Nat2Z.id. reflexivity.
Qed.

Lemma getitem_out_of_range (a : list float) (k : nat) :
  (length a <= k)%nat -> Py.getitem a (Z.of_nat k) = Py.Raise (Py.IndexError (Z.of_nat k) (length a)).
Proof.
  intros Hk. unfold Py.getitem, Py.normalize_index.
  destruct (Z.leb_spec 0 (Z.of_nat k)); [|lia].
  destruct (Z.ltb_spec (Z.of_nat k) (Z.of_nat (length a))); [lia|].
  reflexivity.
Qed.

Lemma getitem_0 (a : list float) :
  (0 < length a)%nat -> Py.getitem a 0 = Py.Ok (nth 0 a 0).
Proof. exact (getitem_in_range a 0). Qed.

Lemma getitem_1 (a : list float) :
  (1 < length a)%nat -> Py.getitem a 1 = Py.Ok (nth 1 a 0).
Proof. exact (getitem_in_range a 1). Qed.

Lemma getitem_1_short (a : list float) :
  (length a < 2)%nat -> Py.getitem a 1 = Py.Raise (Py.IndexError 1 (length a)).
Proof. intros H. apply (getitem_out_of_range a 1). lia. Qed.

Lemma update_length a k x : length (Py.update a k x) = length a.
Proof.
  revert k. induction a as [|h t IH]; intros [|k]; cbn; try reflexivity.
  rewrite IH. reflexivity.
Qed.

Lemma update_same a k : Py.update a k (nth k a 0) = a.
Proof.
  revert k. induction a as [|h t IH]; intros [|k]; cbn; try reflexivity.
  rewrite IH. reflexivity.
Qed.

Lemma setitem_last (a : list float) (x : float) :
  (0 < length a)%nat -> Py.setitem a (-1) x = Py.Ok (Py.update a (length a - 1) x).
Proof.
  intros Hlen. unfold Py.setitem, Py.normalize_index.
  destruct (Z.leb_spec 0 (-1)); [lia|].
  destruct (Z.leb_spec (- Z.of_nat (length a)) (-1)); [|lia].
  replace (Z.to_nat (Z.of_nat (length a) + -1)) with (length a - 1)%nat by lia.
  reflexivity.
Qed.

(** ** [np.linspace] *)

Lemma nth_map_seq (g : nat -> float) (len i : nat) (d : float) :
  (i < len)%nat -> nth i (List.map g (seq 0 len)) d = g i.
Proof.
  intros Hi.
  rewrite (nth_indep _ d (g O)) by (rewrite length_map, length_seq; exact Hi).
  rewrite (map_nth g (seq 0 len) O i). rewrite seq_nth by exact Hi. reflexivity.
Qed.

Lemma linspace_negative a b n :
  (n < 0)%Z -> np.linspace a b n = Py.Raise Py.ValueError.
Proof.
  intros Hn. unfold np.linspace.
  destruct (Z.ltb_spec n 0); [reflexivity|lia].
Qed.

Lemma linspace_samples a b n :
  (2 <= n)%Z ->
  np.linspace a b n = Py.Ok (List.map (sample a b n) (seq 0 (Z.to_nat n))).
Proof.
  intros Hn. unfold np.linspace.
  destruct (Z.ltb_spec n 0); [lia|].
  destruct (Z.ltb_spec 0 (n - 1)); [|lia].
  destruct (Z.ltb_spec 1 n); [|lia].
  assert (Hdiv : IZR (n - 1) <> 0) by (apply not_0_IZR; lia).
  set (y := np.map (fun x => x + a) _).
  assert (Hy : y = List.map (sample a b n) (seq 0 (Z.to_nat n))).
  { subst y. destruct (Req_dec_T ((b - a) / IZR (n - 1)) 0); cbn;
      unfold np.arange; rewrite !map_map; apply map_ext; intros i;
      unfold sample; field; exact Hdiv. }
  rewrite Hy. rewrite setitem_last by (rewrite length_map, length_seq; lia).
  rewrite length_map, length_seq.
  assert (Hlast : nth (Z.to_nat n - 1) (List.map (sample a b n) (seq 0 (Z.to_nat n))) 0 = b).
  { rewrite nth_map_seq by lia. unfold sample.
    rewrite INR_IZR_INZ. replace (Z.of_nat (Z.to_nat n - 1)) with (n - 1)%Z by lia.
    field. exact Hdiv. }
  rewrite <- Hlast at 2. rewrite update_same. reflexivity.
Qed.

Lemma linspace_returns a b n :
  (0 <= n)%Z -> exists y, np.linspace a b n = Py.Ok y /\ length y = Z.to_nat n.
Proof.
  intros Hn. destruct (Z_lt_le_dec n 2) as [Hsmall|Hbig].
  - unfold np.linspace.
    destruct (Z.ltb_spec n 0); [lia|].
    destruct (Z.ltb_spec 0 (n - 1)); [lia|].
    destruct (Z.ltb_spec 1 n); [lia|].
    eexists. split; [reflexivity|].
    cbn. unfold np.arange. rewrite !length_map, length_seq. reflexivity.
  - eexists. split; [apply linspace_samples; exact Hbig|].
    rewrite length_map, length_seq. reflexivity.
Qed.

(** ** Running the constructor and the two queries *)

Lemma init_instance R w n us vs :
  np.linspace 0 (2 * np.pi) n = Py.Ok us ->
  np.linspace (- w / 2) (w / 2) n = Py.Ok vs ->
  __init__ R w n = Py.Ok (instance R w n us vs).
Proof.
  intros Hu Hv. unfold __init__. rewrite Hu, Hv. cbn [Py.bind].
  rewrite meshgrid_grid.
  unfold _generate_mesh, mbind, attr, set_mesh, np.cos, np.sin.
  cbn [self_R self_w self_n self_u self_v self_U self_V self_mesh].
  autorewrite with nd. reflexivity.
Qed.

Lemma surface_area_instance R w n us vs :
  (2 <= length us)%nat -> (2 <= length vs)%nat ->
  compute_surface_area (instance R w n us vs) =
  (Py.Ok (np.sum (grid us vs (area_element R)) *
          (nth 1 us 0 - nth 0 us 0) * (nth 1 vs 0 - nth 0 vs 0)),
   instance R w n us vs).
Proof.
  intros Hu Hv.
  unfold compute_surface_area, mbind, attr, lift, ret, np.cos, np.sin, np.sqrt.
  cbn [instance self_R self_w self_n self_u self_v self_U self_V self_mesh].
  rewrite (getitem_1 us), (getitem_0 us) by lia.
  rewrite (getitem_1 vs), (getitem_0 vs) by lia.
  autorewrite with nd. reflexivity.
Qed.

Lemma surface_area_too_short R w n us vs :
  (length us < 2)%nat ->
  compute_surface_area (instance R w n us vs) =
  (Py.Raise (Py.IndexError 1 (length us)), instance R w n us vs).
Proof.
  intros Hu.
  unfold compute_surface_area, mbind, attr, lift, ret.
  cbn [instance self_R self_w self_n self_u self_v self_U self_V self_mesh].
  rewrite (getitem_1_short us) by exact Hu. reflexivity.
Qed.

Lemma edge_speed_source R w u :
  sqrt ((- (R + w / 2 * cos (u / 2)) * sin u - w / 4 * sin (u / 2) * cos u) ^ 2 +
        ((R + w / 2 * cos (u / 2)) * cos u - w / 4 * sin (u / 2) * sin u) ^ 2 +
        (w / 4 * cos (u / 2)) ^ 2) = edge_speed R w u.
Proof.
  unfold edge_speed, norm3, dP_du, vx, vy, vz. cbn [fst snd].
  f_equal. field.
Qed.

Lemma edge_length_instance R w n us vs :
  (2 <= length us)%nat ->
  compute_edge_length (instance R w n us vs) =
  (Py.Ok (np.sum (List.map (edge_speed R w) us) * (nth 1 us 0 - nth 0 us 0)),
   instance R w n us vs).
Proof.
  intros Hu.
  unfold compute_edge_length, mbind, attr, lift, ret, np.cos, np.sin, np.sqrt.
  cbn [instance self_R self_w self_n self_u self_v self_U self_V self_mesh].
  rewrite (getitem_1 us), (getitem_0 us) by lia.
  autorewrite with nd.
  rewrite (map_ext _ (edge_speed R w) (edge_speed_source R w)). reflexivity.
Qed.

Lemma edge_length_too_short R w n us vs :
  (length us < 2)%nat ->
  compute_edge_length (instance R w n us vs) =
  (Py.Raise (Py.IndexError 1 (length us)), instance R w n us vs).
Proof.
  intros Hu.
  unfold compute_edge_length, mbind, attr, lift, ret.
  cbn [instance self_R self_w self_n self_u self_v self_U self_V self_mesh].
  rewrite (getitem_1_short us) by exact Hu. reflexivity.
Qed.

Lemma init_valid R w n :
  (2 <= n)%Z ->
  __init__ R w n = Py.Ok (instance R w n (u_samples n) (v_samples w n)).
Proof.
  intros Hn. apply init_instance; apply linspace_samples; exact Hn.
Qed.

Lemma samples_length n w :
  length (u_samples n) = Z.to_nat n /\ length (v_samples w n) = Z.to_nat n.
Proof. unfold u_samples, v_samples. rewrite !length_map, !length_seq. split; reflexivity. Qed.

Lemma u_samples_nth n i :
  (i < Z.to_nat n)%nat -> nth i (u_samples n) 0 = u_at n i.
Proof. apply nth_map_seq. Qed.

Lemma v_samples_nth w n j :
  (j < Z.to_nat n)%nat -> nth j (v_samples w n) 0 = v_at w n j.
Proof. apply nth_map_seq. Qed.

Lemma surface_area_valid R w n :
  (2 <= n)%Z ->
  compute_surface_area (instance R w n (u_samples n) (v_samples w n)) =
  (Py.Ok (riemann_area R w n), instance R w n (u_samples n) (v_samples w n)).
Proof.
  intros Hn. destruct (samples_length n w) as [Lu Lv].
  rewrite surface_area_instance by lia.
  rewrite sum_grid_big_sum, Lu, Lv.
  rewrite !u_samples_nth, !v_samples_nth by lia.
  unfold riemann_area. do 4 f_equal.
  apply big_sum_ext. intros j Hj. apply big_sum_ext. intros i Hi.
  rewrite u_samples_nth, v_samples_nth by assumption. reflexivity.
Qed.

Lemma edge_length_valid R w n :
  (2 <= n)%Z ->
  compute_edge_length (instance R w n (u_samples n) (v_samples w n)) =
  (Py.Ok (riemann_length R w n), instance R w n (u_samples n) (v_samples w n)).
Proof.
  intros Hn. destruct (samples_length n w) as [Lu Lv].
  rewrite edge_length_instance by lia.
  rewrite sum_map_big_sum, Lu.
  rewrite !u_samples_nth by lia.
  unfold riemann_length. do 3 f_equal.
  apply big_sum_ext. intros i Hi.
  rewrite u_samples_nth by assumption. reflexivity.
Qed.

(** ** The partial derivatives of the position function *)

Section Derivatives.

Variables (f g : float -> float) (x lf lg : float).
Hypothesis Hf : derivable_pt_lim f x lf.
Hypothesis Hg : derivable_pt_lim g x lg.

Lemma D_plus : derivable_pt_lim (fun t => f t + g t) x (lf + lg).
Proof. exact (derivable_pt_lim_plus f g x lf lg Hf Hg). Qed.

Lemma D_minus : derivable_pt_lim (fun t => f t - g t) x (lf - lg).
Proof. exact (derivable_pt_lim_minus f g x lf lg Hf Hg). Qed.

Lemma D_mult : derivable_pt_lim (fun t => f t * g t) x (lf * g x + f x * lg).
Proof. exact (derivable_pt_lim_mult f g x lf lg Hf Hg). Qed.

Lemma D_opp : derivable_pt_lim (fun t => - f t) x (- lf).
Proof. exact (derivable_pt_lim_opp f x lf Hf). Qed.

Lemma D_div_const c : derivable_pt_lim (fun t => f t / c) x (lf / c).
Proof. exact (derivable_pt_lim_div_scal f x lf c Hf). Qed.

Lemma D_cos : derivable_pt_lim (fun t => cos (f t)) x (- sin (f x) * lf).
Proof. exact (derivable_pt_lim_comp f cos x lf _ Hf (derivable_pt_lim_cos (f x))). Qed.

Lemma D_sin : derivable_pt_lim (fun t => sin (f t)) x (cos (f x) * lf).
Proof. exact (derivable_pt_lim_comp f sin x lf _ Hf (derivable_pt_lim_sin (f x))). Qed.

Lemma D_value l : lf = l -> derivable_pt_lim f x l.
Proof. intros <-. exact Hf. Qed.

End Derivatives.

Lemma D_const c x : derivable_pt_lim (fun _ => c) x 0.
Proof. exact (derivable_pt_lim_const c x). Qed.

Lemma D_id x : derivable_pt_lim (fun t => t) x 1.
Proof. exact (derivable_pt_lim_id x). Qed.

Ltac differentiate :=
  repeat first
    [ apply D_const | apply D_id
    | apply D_plus | apply D_minus | apply D_mult | apply D_opp
    | apply D_div_const | apply D_cos | apply D_sin ].

Lemma position_du R u v : is_derivative3 (fun t => position R t v) u (dP_du R u v).
Proof.
  unfold is_derivative3, position, dP_du, vx, vy, vz. cbn [fst snd].
  repeat split.
  - eapply D_value; [differentiate|]. cbn beta. field.
  - eapply D_value; [differentiate|]. cbn beta. field.
  - eapply D_value; [differentiate|]. cbn beta. field.
Qed.

Lemma position_dv R u v : is_derivative3 (fun t => position R u t) v (dP_dv u).
Proof.
  unfold is_derivative3, position, dP_dv, vx, vy, vz. cbn [fst snd].
  repeat split.
  - eapply D_value; [differentiate|]. cbn beta. field.
  - eapply D_value; [differentiate|]. cbn beta. field.
  - eapply D_value; [differentiate|]. cbn beta. field.
Qed.

(** ** The area element and the speed in closed form *)

Lemma tangent_norm_sq (R v c s C S : float) :
  s * s + c * c = 1 -> S * S + C * C = 1 ->
  (- (R + v * c) * S - v / 2 * s * C) ^ 2 +
  ((R + v * c) * C - v / 2 * s * S) ^ 2 +
  (v / 2 * c) ^ 2 = (R + v * c) ^ 2 + (v / 2) ^ 2.
Proof.
  intros Hs HS.
  replace ((- (R + v * c) * S - v / 2 * s * C) ^ 2 +
           ((R + v * c) * C - v / 2 * s * S) ^ 2 + (v / 2 * c) ^ 2)
    with ((R + v * c) ^ 2 * (S * S + C * C) +
          (v / 2) ^ 2 * (s * s * (S * S + C * C) + c * c)) by ring.
  rewrite HS. rewrite !Rmult_1_r. rewrite Hs. ring.
Qed.

Lemma cross_norm_sq (R v c s C S : float) :
  s * s + c * c = 1 -> S * S + C * C = 1 ->
  (((R + v * c) * C - v / 2 * s * S) * s - v / 2 * c * (c * S)) ^ 2 +
  (v / 2 * c * (c * C) - (- (R + v * c) * S - v / 2 * s * C) * s) ^ 2 +
  ((- (R + v * c) * S - v / 2 * s * C) * (c * S) -
   ((R + v * c) * C - v / 2 * s * S) * (c * C)) ^ 2
  = (R + v * c) ^ 2 + (v / 2) ^ 2.
Proof.
  intros Hs HS.
  match goal with |- ?lhs = _ =>
    replace lhs
      with (((R + v * c) ^ 2 * (S * S + C * C) +
             (v / 2) ^ 2 * (s * s * (S * S + C * C) + c * c)) *
            (c * c * (S * S + C * C) + s * s) -
            (v / 2 * s * c * (1 - (S * S + C * C))) ^ 2) by ring
  end.
  rewrite HS. rewrite !Rmult_1_r.
  replace (c * c + s * s) with (s * s + c * c) by ring.
  rewrite Hs. ring.
Qed.

Lemma sin_cos_sq x : sin x * sin x + cos x * cos x = 1.
Proof. exact (sin2_cos2 x). Qed.

Lemma edge_speed_closed R w u :
  edge_speed R w u = sqrt ((R + w / 2 * cos (u / 2)) ^ 2 + (w / 2 / 2) ^ 2).
Proof.
  unfold edge_speed, norm3, dP_du, vx, vy, vz. cbn [fst snd]. f_equal.
  apply tangent_norm_sq; apply sin_cos_sq.
Qed.

Lemma area_element_closed R u v :
  area_element R u v = sqrt ((R + v * cos (u / 2)) ^ 2 + (v / 2) ^ 2).
Proof.
  unfold area_element, norm3, cross, dP_du, dP_dv, vx, vy, vz. cbn [fst snd]. f_equal.
  apply cross_norm_sq; apply sin_cos_sq.
Qed.

Lemma sqrt_sum_sq_bounds a b :
  Rabs a <= sqrt (a ^ 2 + b ^ 2) <= Rabs a + Rabs b.
Proof.
  pose proof (Rabs_pos a) as Ha. pose proof (Rabs_pos b) as Hb.
  assert (Ha2 : Rabs a * Rabs a = a * a) by (rewrite <- Rabs_mult; apply Rabs_pos_eq; nra).
  assert (Hb2 : Rabs b * Rabs b = b * b) by (rewrite <- Rabs_mult; apply Rabs_pos_eq; nra).
  split.
  - rewrite <- (sqrt_Rsqr (Rabs a)) at 1 by exact Ha.
    apply sqrt_le_1_alt. unfold Rsqr. nra.
  - rewrite <- (sqrt_Rsqr (Rabs a + Rabs b)) by lra.
    apply sqrt_le_1_alt. unfold Rsqr. nra.
Qed.

Lemma Rabs_cos_le_1 x : Rabs (cos x) <= 1.
Proof. apply Rabs_le. pose proof (COS_bound x). lra. Qed.

Lemma offset_bound R v c :
  0 < R -> Rabs c <= 1 ->
  R - Rabs v <= Rabs (R + v * c) <= R + Rabs v.
Proof.
  intros HR Hc.
  assert (Hvc : Rabs (v * c) <= Rabs v).
  { rewrite Rabs_mult. pose proof (Rabs_pos v). pose proof (Rabs_pos c). nra. }
  pose proof (Rabs_triang R (v * c)) as H1.
  pose proof (Rabs_triang_inv R (v * c)) as H2.
  rewrite (Rabs_pos_eq R) in H1, H2 by lra.
  split; [|lra].
  replace (R + v * c) with (R - (- (v * c))) by ring.
  pose proof (Rabs_triang_inv R (- (v * c))) as H3.
  rewrite Rabs_Ropp, (Rabs_pos_eq R) in H3 by lra. lra.
Qed.

Lemma area_element_bounds R u v :
  0 < R -> 0 <= area_element R u v <= R + 3 / 2 * Rabs v.
Proof.
  intros HR. rewrite area_element_closed.
  split; [apply sqrt_pos|].
  pose proof (sqrt_sum_sq_bounds (R + v * cos (u / 2)) (v / 2)) as [_ Hup].
  pose proof (offset_bound R v (cos (u / 2)) HR (Rabs_cos_le_1 _)) as [_ Ha].
  assert (Hh : Rabs (v / 2) = Rabs v / 2).
  { unfold Rdiv. rewrite Rabs_mult, (Rabs_pos_eq (/ 2)) by lra. reflexivity. }
  lra.
Qed.

Lemma edge_speed_near_R R w u :
  0 < R -> Rabs (edge_speed R w u - R) <= 3 / 4 * Rabs w.
Proof.
  intros HR. rewrite edge_speed_closed.
  pose proof (sqrt_sum_sq_bounds (R + w / 2 * cos (u / 2)) (w / 2 / 2)) as [Hlo Hup].
  pose proof (offset_bound R (w / 2) (cos (u / 2)) HR (Rabs_cos_le_1 _)) as [Hb Ha].
  assert (Hh : Rabs (w / 2) = Rabs w / 2).
  { unfold Rdiv. rewrite Rabs_mult, (Rabs_pos_eq (/ 2)) by lra. reflexivity. }
  assert (Hq : Rabs (w / 2 / 2) = Rabs w / 4).
  { replace (w / 2 / 2) with (w * / 4) by field.
    rewrite Rabs_mult, (Rabs_pos_eq (/ 4)) by lra. reflexivity. }
  apply Rabs_le. lra.
Qed.

(** ** The samples *)

Section Spacing.

Variable n : Z.
Hypothesis Hn : (2 <= n)%Z.

Let div_pos : 0 < IZR (n - 1).
Proof. apply IZR_lt. lia. Qed.

Lemma INR_last : INR (Z.to_nat n - 1) = IZR (n - 1).
Proof. rewrite INR_IZR_INZ. f_equal. lia. Qed.

Lemma INR_count : INR (Z.to_nat n) = IZR n.
Proof. rewrite INR_IZR_INZ. f_equal. lia. Qed.

Lemma sample_first a b : sample a b n 0 = a.
Proof. unfold sample. simpl. ring. Qed.

Lemma sample_last a b : sample a b n (Z.to_nat n - 1) = b.
Proof. unfold sample. rewrite INR_last. field. lra. Qed.

Lemma sample_step a b i :
  sample a b n (S i) - sample a b n i = (b - a) / IZR (n - 1).
Proof. unfold sample. rewrite S_INR. field. lra. Qed.

Lemma sample_first_step a b :
  sample a b n 1 - sample a b n 0 = (b - a) / IZR (n - 1).
Proof. apply sample_step. Qed.

Lemma sample_injective a b i j :
  a <> b -> sample a b n i = sample a b n j -> i = j.
Proof.
  intros Hab H. unfold sample in H. apply INR_eq.
  assert (Hstep : (b - a) / IZR (n - 1) <> 0).
  { unfold Rdiv. apply Rmult_integral_contrapositive_currified.
    - lra.
    - apply Rinv_neq_0_compat. lra. }
  apply (Rmult_eq_reg_r ((b - a) / IZR (n - 1))); [lra|exact Hstep].
Qed.

Lemma sample_between a b i :
  a <= b -> (i < Z.to_nat n)%nat -> a <= sample a b n i <= b.
Proof.
  intros Hab Hi. unfold sample.
  assert (H0 : 0 <= INR i) by apply pos_INR.
  assert (H1 : INR i <= IZR (n - 1)).
  { rewrite <- INR_last. apply le_INR. lia. }
  assert (Hd : 0 <= (b - a) / IZR (n - 1)).
  { apply Rmult_le_pos; [lra|]. left. apply Rinv_0_lt_compat. lra. }
  split; [nra|].
  replace b with (a + IZR (n - 1) * ((b - a) / IZR (n - 1))) at 2 by (field; lra).
  nra.
Qed.

Lemma sample_mirror c j :
  (j < Z.to_nat n)%nat ->
  sample (- c) c n (Z.to_nat n - 1 - j) = - sample (- c) c n j.
Proof.
  intros Hj. unfold sample.
  rewrite minus_INR by lia. rewrite INR_last. field. lra.
Qed.

Lemma sample_scale k a b i :
  sample (k * a) (k * b) n i = k * sample a b n i.
Proof. unfold sample. field. lra. Qed.

Lemma u_step : u_at n 1 - u_at n 0 = 2 * PI / IZR (n - 1).
Proof.
  unfold u_at. rewrite sample_first_step. f_equal. ring.
Qed.

Lemma v_step w : v_at w n 1 - v_at w n 0 = w / IZR (n - 1).
Proof.
  unfold v_at. rewrite sample_first_step. f_equal. field.
Qed.

Lemma u_step_pos : 0 < u_at n 1 - u_at n 0.
Proof.
  rewrite u_step. apply Rdiv_lt_0_compat; [|exact div_pos].
  pose proof PI_RGT_0. lra.
Qed.

Lemma v_at_scale k w j : v_at (k * w) n j = k * v_at w n j.
Proof.
  unfold v_at. rewrite <- sample_scale. f_equal; field.
Qed.

Lemma v_at_bound w j :
  0 <= w -> (j < Z.to_nat n)%nat -> Rabs (v_at w n j) <= w / 2.
Proof.
  intros Hw Hj. unfold v_at.
  pose proof (sample_between (- w / 2) (w / 2) j ltac:(lra) Hj).
  apply Rabs_le. lra.
Qed.

End Spacing.

(** ** The two numbers of a valid model, and their behaviour for a thin strip *)

Lemma surface_area_eval R w n :
  (2 <= n)%Z -> surface_area R w n = Py.Ok (riemann_area R w n).
Proof.
  intros Hn. unfold surface_area. rewrite init_valid by exact Hn. cbn [Py.bind].
  rewrite surface_area_valid by exact Hn. reflexivity.
Qed.

Lemma edge_length_eval R w n :
  (2 <= n)%Z -> edge_length R w n = Py.Ok (riemann_length R w n).
Proof.
  intros Hn. unfold edge_length. rewrite init_valid by exact Hn. cbn [Py.bind].
  rewrite edge_length_valid by exact Hn. reflexivity.
Qed.

Lemma riemann_length_near R w n :
  0 < R -> (2 <= n)%Z ->
  Rabs (riemann_length R w n - 2 * PI * R * (IZR n / IZR (n - 1))) <=
  IZR n * (3 / 4 * (2 * PI / IZR (n - 1))) * Rabs w.
Proof.
  intros HR Hn.
  assert (Hd : 0 < IZR (n - 1)) by (apply IZR_lt; lia).
  pose proof (u_step_pos n Hn) as Hdu. pose proof (u_step n Hn) as Edu.
  unfold riemann_length.
  set (N := Z.to_nat n). set (du := u_at n 1 - u_at n 0) in *.
  replace (2 * PI * R * (IZR n / IZR (n - 1))) with (big_sum N (fun _ => R) * du).
  2:{ rewrite big_sum_const. subst N. rewrite INR_count by exact Hn.
      rewrite Edu. field. lra. }
  rewrite <- Rmult_minus_distr_r, big_sum_minus, Rabs_mult, (Rabs_pos_eq du) by lra.
  assert (Hsum : Rabs (big_sum N (fun i => edge_speed R w (u_at n i) - R)) <=
                 INR N * (3 / 4 * Rabs w)).
  { eapply Rle_trans; [apply big_sum_Rabs|].
    rewrite <- big_sum_const. apply big_sum_le. intros i _.
    apply edge_speed_near_R. exact HR. }
  subst N. rewrite INR_count in Hsum by exact Hn.
  rewrite <- Edu.
  replace (IZR n * (3 / 4 * du) * Rabs w) with (IZR n * (3 / 4 * Rabs w) * du) by ring.
  apply Rmult_le_compat_r; [lra|exact Hsum].
Qed.

Lemma riemann_area_bounds R w n :
  0 < R -> 0 <= w -> (2 <= n)%Z ->
  0 <= riemann_area R w n <=
  IZR n * (IZR n * (R + 3 / 4 * w)) * (2 * PI / IZR (n - 1)) * (w / IZR (n - 1)).
Proof.
  intros HR Hw Hn.
  assert (Hd : 0 < IZR (n - 1)) by (apply IZR_lt; lia).
  pose proof (u_step_pos n Hn) as Hdu.
  unfold riemann_area. rewrite (v_step n Hn w). rewrite <- (u_step n Hn).
  set (N := Z.to_nat n). set (du := u_at n 1 - u_at n 0) in *.
  assert (Hdv : 0 <= w / IZR (n - 1)).
  { apply Rmult_le_pos; [exact Hw|]. left. apply Rinv_0_lt_compat. exact Hd. }
  set (S2 := big_sum N (fun j => big_sum N (fun i => area_element R (u_at n i) (v_at w n j)))).
  assert (Hlo : 0 <= S2).
  { subst S2. replace 0 with (big_sum N (fun _ => big_sum N (fun _ => 0))).
    2:{ rewrite !big_sum_const. ring. }
    apply big_sum_le. intros j _. apply big_sum_le. intros i _.
    apply area_element_bounds. exact HR. }
  assert (Hup : S2 <= IZR n * (IZR n * (R + 3 / 4 * w))).
  { subst S2. rewrite <- (INR_count n Hn). fold N.
    rewrite <- !big_sum_const.
    apply big_sum_le. intros j Hj. apply big_sum_le. intros i _.
    pose proof (area_element_bounds R (u_at n i) (v_at w n j) HR) as [_ Hb].
    pose proof (v_at_bound n Hn w j Hw Hj). lra. }
  split.
  - apply Rmult_le_pos; [apply Rmult_le_pos|]; lra.
  - apply Rmult_le_compat_r; [exact Hdv|].
    apply Rmult_le_compat_r; [lra|exact Hup].
Qed.

Lemma edge_length_limit R n :
  0 < R -> (2 <= n)%Z ->
  tends_to_at_0 (fun w => edge_length R w n) (2 * PI * R * (IZR n / IZR (n - 1))).
Proof.
  intros HR Hn eps Heps.
  assert (Hd : 0 < IZR (n - 1)) by (apply IZR_lt; lia).
  assert (Hc : 0 < IZR n) by (apply IZR_lt; lia).
  pose proof PI_RGT_0 as Hpi.
  set (K := IZR n * (3 / 4 * (2 * PI / IZR (n - 1)))).
  assert (HK : 0 < K).
  { subst K. apply Rmult_lt_0_compat; [exact Hc|].
    apply Rmult_lt_0_compat; [lra|]. apply Rdiv_lt_0_compat; lra. }
  exists (eps / K). split; [apply Rdiv_lt_0_compat; assumption|].
  intros w [Hw0 Hw]. exists (riemann_length R w n).
  split; [apply edge_length_eval; exact Hn|].
  eapply Rle_lt_trans; [apply riemann_length_near; assumption|].
  fold K. rewrite (Rabs_pos_eq w) by lra.
  apply (Rmult_lt_compat_l K) in Hw; [|exact HK].
  replace (K * (eps / K)) with eps in Hw by (field; lra). exact Hw.
Qed.

Lemma surface_area_limit R n :
  0 < R -> (2 <= n)%Z ->
  tends_to_at_0 (fun w => surface_area R w n) 0.
Proof.
  intros HR Hn eps Heps.
  assert (Hd : 0 < IZR (n - 1)) by (apply IZR_lt; lia).
  assert (Hc : 0 < IZR n) by (apply IZR_lt; lia).
  pose proof PI_RGT_0 as Hpi.
  set (du := 2 * PI / IZR (n - 1)).
  assert (Hdu : 0 < du) by (apply Rdiv_lt_0_compat; lra).
  set (K := IZR n * (IZR n * (R + 3 / 4)) * du * / IZR (n - 1)).
  assert (HK : 0 < K).
  { subst K. apply Rmult_lt_0_compat; [|apply Rinv_0_lt_compat; exact Hd].
    apply Rmult_lt_0_compat; [|exact Hdu].
    apply Rmult_lt_0_compat; [exact Hc|].
    apply Rmult_lt_0_compat; lra. }
  exists (Rmin 1 (eps / K)). split.
  { apply Rmin_glb_lt; [lra|apply Rdiv_lt_0_compat; assumption]. }
  intros w [Hw0 Hw]. exists (riemann_area R w n).
  split; [apply surface_area_eval; exact Hn|].
  pose proof (Rmin_l 1 (eps / K)) as Hw1. pose proof (Rmin_r 1 (eps / K)) as Hw2.
  pose proof (riemann_area_bounds R w n HR ltac:(lra) Hn) as [Hlo Hup].
  fold du in Hup.
  rewrite Rminus_0_r, Rabs_pos_eq by exact Hlo.
  assert (Hle : IZR n * (IZR n * (R + 3 / 4 * w)) * du * (w / IZR (n - 1)) <= K * w).
  { replace (K * w) with (IZR n * (IZR n * (R + 3 / 4)) * du * (w / IZR (n - 1)))
      by (subst K; field; lra).
    assert (Hdv : 0 <= w / IZR (n - 1)).
    { apply Rmult_le_pos; [lra|]. left. apply Rinv_0_lt_compat. exact Hd. }
    apply Rmult_le_compat_r; [exact Hdv|].
    apply Rmult_le_compat_r; [lra|].
    apply Rmult_le_compat_l; [lra|].
    apply Rmult_le_compat_l; [lra|]. lra. }
  assert (Hlt : K * w < eps).
  { assert (w < eps / K) by lra.
    apply (Rmult_lt_compat_l K) in H; [|exact HK].
    replace (K * (eps / K)) with eps in H by (field; lra). exact H. }
  lra.
Qed.

(** ** Construction with any count *)

Lemma init_returns R w n :
  (0 <= n)%Z ->
  exists us vs,
    __init__ R w n = Py.Ok (instance R w n us vs) /\
    length us = Z.to_nat n /\ length vs = Z.to_nat n.
Proof.
  intros Hn.
  destruct (linspace_returns 0 (2 * np.pi) n Hn) as [us [Hus Lus]].
  destruct (linspace_returns (- w / 2) (w / 2) n Hn) as [vs [Hvs Lvs]].
  exists us, vs. split; [|split; assumption].
  apply init_instance; assumption.
Qed.

Lemma init_negative R w n :
  (n < 0)%Z -> __init__ R w n = Py.Raise Py.ValueError.
Proof.
  intros Hn. unfold __init__. rewrite linspace_negative by exact Hn. reflexivity.
Qed.

(** ** Scaling *)

Lemma sqrt_scale k x : 0 <= k -> sqrt (k ^ 2 * x) = k * sqrt x.
Proof.
  intros Hk. destruct (Rle_lt_dec 0 x) as [Hx|Hx].
  - rewrite sqrt_mult by nra. rewrite <- Rsqr_pow2, sqrt_Rsqr by exact Hk. reflexivity.
  - rewrite (sqrt_neg_0 x) by lra. rewrite sqrt_neg_0 by nra. ring.
Qed.

Lemma area_element_scale k R u v :
  0 <= k -> area_element (k * R) u (k * v) = k * area_element R u v.
Proof.
  intros Hk. rewrite !area_element_closed, <- sqrt_scale by exact Hk.
  f_equal. field.
Qed.

Lemma edge_speed_scale k R w u :
  0 <= k -> edge_speed (k * R) (k * w) u = k * edge_speed R w u.
Proof.
  intros Hk. rewrite !edge_speed_closed, <- sqrt_scale by exact Hk.
  f_equal. field.
Qed.

Lemma riemann_area_scale k R w n :
  0 <= k -> (2 <= n)%Z ->
  riemann_area (k * R) (k * w) n = k ^ 2 * riemann_area R w n.
Proof.
  intros Hk Hn. unfold riemann_area.
  rewrite !(v_at_scale n Hn).
  rewrite (big_sum_ext _ _
             (fun j => k * big_sum (Z.to_nat n)
                             (fun i => area_element R (u_at n i) (v_at w n j)))).
  - rewrite big_sum_scal. ring.
  - intros j _. rewrite <- big_sum_scal. apply big_sum_ext. intros i _.
    rewrite (v_at_scale n Hn). apply area_element_scale. exact Hk.
Qed.

Lemma riemann_length_scale k R w n :
  0 <= k -> riemann_length (k * R) (k * w) n = k * riemann_length R w n.
Proof.
  intros Hk. unfold riemann_length.
  rewrite (big_sum_ext _ _ (fun i => k * edge_speed R w (u_at n i))).
  - rewrite big_sum_scal. ring.
  - intros i _. apply edge_speed_scale. exact Hk.
Qed.

(** ** The seam *)

Lemma position_seam R v : position R (2 * PI) v = position R 0 (- v).
Proof.
  unfold position.
  replace (2 * PI / 2) with PI by field.
  replace (0 / 2) with 0 by field.
  rewrite cos_2PI, sin_2PI, cos_PI, sin_PI, cos_0, sin_0.
  f_equal; [f_equal|]; ring.
Qed.

(** ** The model on small inputs *)

Example getitem_last_of_three : Py.getitem [1; 2; 3] (-1) = Py.Ok 3.
Proof. reflexivity. Qed.

Example getitem_past_the_end : Py.getitem [7] 1 = Py.Raise (Py.IndexError 1 1).
Proof. reflexivity. Qed.

Example linspace_three : np.linspace 0 1 3 = Py.Ok [0; 1 / 2; 1].
Proof.
  rewrite linspace_samples by lia.
  change (Z.to_nat 3) with 3%nat. cbn [seq List.map].
  unfold sample. change (IZR (3 - 1)) with 2. cbn [INR].
  apply f_equal. repeat (apply (f_equal2 cons); [field|]). reflexivity.
Qed.

Example linspace_one : np.linspace 5 9 1 = Py.Ok [0 * (9 - 5) + 5].
Proof. reflexivity. Qed.

Example linspace_none : np.linspace 5 9 0 = Py.Ok [].
Proof. reflexivity. Qed.

Example meshgrid_two_by_three :
  np.meshgrid [1; 2; 3] [10; 20] =
  ([[1; 2; 3]; [1; 2; 3]], [[10; 10; 10]; [20; 20; 20]]).
Proof. reflexivity. Qed.

Example sum_two_by_two : np.sum [[1; 2]; [3; 4]] = 10.
Proof. cbn. ring. Qed.

Example surface_area_of_one_sample :
  surface_area 1 (1 / 2) 1 = Py.Raise (Py.IndexError 1 1).
Proof. reflexivity. Qed.

Example edge_length_of_no_sample :
  edge_length 1 (1 / 2) 0 = Py.Raise (Py.IndexError 1 0).
Proof. reflexivity. Qed.

Example negative_count : surface_area 1 (1 / 2) (-1) = Py.Raise Py.ValueError.
Proof. reflexivity. Qed.

(** Two samples and no width: both speeds are [R = 1], the step is
    [2 pi], and the length comes out as [4 pi]. *)
Example edge_length_two_samples_no_width : edge_length 1 0 2 = Py.Ok (4 * PI).
Proof.
  rewrite edge_length_eval by lia. f_equal.
  unfold riemann_length. rewrite u_step by lia.
  change (Z.to_nat 2) with 2%nat. cbn [big_sum].
  rewrite !edge_speed_closed.
  replace ((1 + 0 / 2 * cos (u_at 2 0 / 2)) ^ 2 + (0 / 2 / 2) ^ 2) with (1 ^ 2) by field.
  replace ((1 + 0 / 2 * cos (u_at 2 1 / 2)) ^ 2 + (0 / 2 / 2) ^ 2) with (1 ^ 2) by field.
  rewrite <- Rsqr_pow2, sqrt_Rsqr by lra.
  change (IZR (2 - 1)) with 1. field.
Qed.

(** ** The statements of the specification *)

Lemma valid_example : valid 1 (1 / 2) 2.
Proof. unfold valid. split; [lra|]. split; [lra|lia]. Defined.

Lemma partials_are_derivatives : partials_of_position.
Proof. intros R u v. split; [apply position_du|apply position_dv]. Qed.

(** C1.  For valid parameters [compute_surface_area] returns the sum,
    over all [n * n] grid points [(u_i, v_j)], of the norm of the cross
    product of the partial derivatives of the position function, times
    [du * dv] with [du = u[1] - u[0]] and [dv = v[1] - v[0]]; the closed
    forms used are the derivatives of the position function, and the one
    along [v] takes no radius. *)
Theorem compute_surface_area_riemann_sum (R w : float) (n : Z) :
  valid R w n ->
  area_is_sum_of_area_elements R w n /\ partials_of_position.
Proof.
  intros (HR & Hw & Hn). split; [|exact partials_are_derivatives].
  destruct (samples_length n w) as [Lu Lv].
  exists (instance R w n (u_samples n) (v_samples w n)).
  split; [apply init_valid; exact Hn|].
  cbv zeta. rewrite surface_area_instance by lia.
  cbn [fst instance self_u self_v].
  rewrite sum_grid_big_sum, Lu, Lv. reflexivity.
Qed.

Lemma compute_surface_area_riemann_sum_witness :
  valid 1 (1 / 2) 2 /\
  area_is_sum_of_area_elements 1 (1 / 2) 2 /\ partials_of_position.
Proof.
  split; [exact valid_example|].
  exact (compute_surface_area_riemann_sum 1 (1 / 2) 2 valid_example).
Defined.

(** C2.  For valid parameters [compute_edge_length] returns the sum,
    over all [n] angular samples, of the norm of the derivative along
    [u] of the curve [P(u, w/2)], times [du = u[1] - u[0]]. *)
Theorem compute_edge_length_riemann_sum (R w : float) (n : Z) :
  valid R w n ->
  length_is_sum_of_speeds R w n /\
  forall u, is_derivative3 (fun t => position R t (w / 2)) u (dP_du R u (w / 2)).
Proof.
  intros (HR & Hw & Hn). split; [|intros u; apply position_du].
  destruct (samples_length n w) as [Lu Lv].
  exists (instance R w n (u_samples n) (v_samples w n)).
  split; [apply init_valid; exact Hn|].
  cbv zeta. rewrite edge_length_instance by lia.
  cbn [fst instance self_u].
  rewrite sum_map_big_sum, Lu. reflexivity.
Qed.

Lemma compute_edge_length_riemann_sum_witness :
  valid 1 (1 / 2) 2 /\
  length_is_sum_of_speeds 1 (1 / 2) 2 /\
  forall u, is_derivative3 (fun t => position 1 t (1 / 2 / 2)) u (dP_du 1 u (1 / 2 / 2)).
Proof.
  split; [exact valid_example|].
  exact (compute_edge_length_riemann_sum 1 (1 / 2) 2 valid_example).
Defined.

Lemma width_ends_differ w : 0 < w -> - w / 2 <> w / 2.
Proof. intros Hw. lra. Qed.

Lemma angle_ends_differ : 0 <> 2 * PI.
Proof. pose proof PI_RGT_0. lra. Qed.

(** C3.  For valid parameters the stored mesh consists of three
    [n * n] grids holding the position function at every pair of
    samples, and each pair [(u_i, v_j)] occupies exactly one cell of the
    sample grid (row [j], column [i]). *)
Theorem generate_mesh_position_grid (R w : float) (n : Z) :
  valid R w n -> mesh_is_position_grid R w n.
Proof.
  intros (HR & Hw & Hn).
  destruct (samples_length n w) as [Lu Lv].
  exists (instance R w n (u_samples n) (v_samples w n)).
  do 3 eexists. split; [apply init_valid; exact Hn|].
  split; [reflexivity|].
  cbv zeta. cbn [instance self_u self_v self_U self_V].
  assert (Hshape : forall f, shape (grid (u_samples n) (v_samples w n) f)
                               (Z.to_nat n) (Z.to_nat n)).
  { intros f. pose proof (grid_shape (u_samples n) (v_samples w n) f) as H.
    rewrite Lu, Lv in H. exact H. }
  split; [apply Hshape|]. split; [apply Hshape|]. split; [apply Hshape|].
  split.
  - intros i j Hi Hj. rewrite !grid_entry by lia. repeat split; reflexivity.
  - intros i j r c Hi Hj Hr Hc.
    rewrite !grid_entry by lia.
    rewrite !u_samples_nth, !v_samples_nth by assumption.
    split.
    + intros [HU HV]. split.
      * apply (sample_injective n Hn) in HV; [exact HV|].
        apply width_ends_differ. exact Hw.
      * apply (sample_injective n Hn) in HU; [exact HU|].
        exact angle_ends_differ.
    + intros [-> ->]. split; reflexivity.
Qed.

Lemma generate_mesh_position_grid_witness :
  valid 1 (1 / 2) 2 /\ mesh_is_position_grid 1 (1 / 2) 2.
Proof.
  split; [exact valid_example|].
  exact (generate_mesh_position_grid 1 (1 / 2) 2 valid_example).
Defined.

Lemma short_instance_raises R w n us vs :
  (n < 2)%Z -> length us = Z.to_nat n ->
  queries_raise_IndexError n (instance R w n us vs).
Proof.
  intros Hn Lu. unfold queries_raise_IndexError. rewrite <- Lu. split.
  - apply surface_area_too_short. lia.
  - apply edge_length_too_short. lia.
Qed.

(** C4, as the code has it.  A count below two is never answered with
    [InvalidParameter]: with [n = 0] or [n = 1] the construction
    completes and both queries then raise [IndexError] on [u[1]]; with a
    negative [n] the construction stops with the [ValueError] of
    [np.linspace]. *)
Theorem init_small_count (R w : float) (n : Z) :
  (n < 2)%Z -> small_count_behaviour R w n.
Proof.
  intros Hn. unfold small_count_behaviour.
  destruct (Z_lt_le_dec n 0) as [Hneg|Hpos].
  - rewrite init_negative by exact Hneg.
    split; [discriminate|]. split; [lia|reflexivity].
  - destruct (init_returns R w n Hpos) as (us & vs & Hinit & Lu & Lv).
    rewrite Hinit. split; [discriminate|]. split; [|lia].
    intros _. exists (instance R w n us vs). split; [reflexivity|].
    apply short_instance_raises; assumption.
Qed.

Lemma init_small_count_witness :
  (1 < 2)%Z /\ small_count_behaviour 1 (1 / 2) 1.
Proof.
  split; [lia|]. apply (init_small_count 1 (1 / 2) 1). lia.
Defined.

(** C4, as stated, fails: with the default radius and width and
    [n = 1] the constructor returns an object and raises nothing. *)
Lemma init_count_one_succeeds :
  (exists self, __init__ 1 (1 / 2) 1 = Py.Ok self) /\
  __init__ 1 (1 / 2) 1 <> Py.Raise Py.InvalidParameter.
Proof.
  destruct (init_returns 1 (1 / 2) 1 ltac:(lia)) as (us & vs & Hinit & _).
  rewrite Hinit. split; [eexists; reflexivity|discriminate].
Qed.

(** C5.  For valid parameters and every width sample [v_j], the mesh
    position in the column of [u = 2 pi] equals the position at [u = 0]
    and [- v_j], that is, the entry of the column of [u = 0] at the
    mirrored sample. *)
Theorem mesh_seam_reflection (R w : float) (n : Z) :
  valid R w n -> mesh_closes_with_a_flip R w n.
Proof.
  intros (HR & Hw & Hn).
  destruct (samples_length n w) as [Lu Lv].
  exists (instance R w n (u_samples n) (v_samples w n)).
  do 3 eexists. split; [apply init_valid; exact Hn|].
  split; [reflexivity|].
  cbv zeta. cbn [instance self_u self_v].
  assert (Hfirst : nth 0 (u_samples n) 0 = 0).
  { rewrite u_samples_nth by lia. apply sample_first. }
  assert (Hlast : nth (Z.to_nat n - 1) (u_samples n) 0 = 2 * PI).
  { rewrite u_samples_nth by lia. apply sample_last. exact Hn. }
  split; [exact Hfirst|]. split; [exact Hlast|].
  intros j Hj.
  assert (Hmirror : nth (Z.to_nat n - 1 - j) (v_samples w n) 0 = - nth j (v_samples w n) 0).
  { rewrite !v_samples_nth by lia. unfold v_at.
    replace (- w / 2) with (- (w / 2)) by field.
    apply sample_mirror; assumption. }
  assert (Hseam : forall f : float -> float -> float,
             entry (grid (u_samples n) (v_samples w n) f) j (Z.to_nat n - 1) =
             f (2 * PI) (nth j (v_samples w n) 0)).
  { intros f. rewrite grid_entry by lia. rewrite Hlast. reflexivity. }
  assert (Hstart : forall f : float -> float -> float,
             entry (grid (u_samples n) (v_samples w n) f) (Z.to_nat n - 1 - j) 0 =
             f 0 (- nth j (v_samples w n) 0)).
  { intros f. rewrite grid_entry by lia. rewrite Hfirst, Hmirror. reflexivity. }
  rewrite !Hseam, !Hstart.
  change (position R (2 * PI) (nth j (v_samples w n) 0) =
          position R 0 (- nth j (v_samples w n) 0) /\
          nth (Z.to_nat n - 1 - j) (v_samples w n) 0 = - nth j (v_samples w n) 0 /\
          position R (2 * PI) (nth j (v_samples w n) 0) =
          position R 0 (- nth j (v_samples w n) 0)).
  split; [apply position_seam|]. split; [exact Hmirror|apply position_seam].
Qed.

Lemma mesh_seam_reflection_witness :
  valid 1 (1 / 2) 2 /\ mesh_closes_with_a_flip 1 (1 / 2) 2.
Proof.
  split; [exact valid_example|].
  exact (mesh_seam_reflection 1 (1 / 2) 2 valid_example).
Defined.

(** C6.  For [k > 0] and valid parameters, the model built with
    [(k R, k w, n)] has [k^2] times the surface area and [k] times the
    edge length of the model built with [(R, w, n)]. *)
Theorem scaling_law (k R w : float) (n : Z) :
  0 < k -> valid R w n -> scale_law k R w n.
Proof.
  intros Hk (HR & Hw & Hn).
  exists (riemann_area R w n), (riemann_length R w n).
  rewrite !surface_area_eval, !edge_length_eval by exact Hn.
  rewrite riemann_area_scale, riemann_length_scale by (lra || exact Hn).
  repeat split; reflexivity.
Qed.

Lemma scaling_law_witness :
  0 < 3 /\ valid 1 (1 / 2) 2 /\ scale_law 3 1 (1 / 2) 2.
Proof.
  split; [lra|]. split; [exact valid_example|].
  apply (scaling_law 3 1 (1 / 2) 2); [lra|exact valid_example].
Defined.

(** C7, as the code has it.  For [R > 0] and a fixed [n >= 2], as the
    width tends to zero the surface area tends to [0] and the edge
    length tends to [2 pi R n / (n - 1)]: the sum has [n] terms and the
    step is [2 pi / (n - 1)]. *)
Theorem thin_strip_limits_hold (R : float) (n : Z) :
  0 < R -> (2 <= n)%Z -> thin_strip_limits R n.
Proof.
  intros HR Hn. split.
  - apply surface_area_limit; assumption.
  - apply edge_length_limit; assumption.
Qed.

Lemma thin_strip_limits_hold_witness :
  0 < 1 /\ (2 <= 2)%Z /\ thin_strip_limits 1 2.
Proof.
  split; [lra|]. split; [lia|].
  apply (thin_strip_limits_hold 1 2); [lra|lia].
Defined.

(** C7, as stated, fails: with [R = 1] and [n = 2] the edge length does
    not tend to [2 pi R] as the width tends to zero (it tends to
    [4 pi]). *)
Lemma thin_strip_length_not_circumference :
  ~ (tends_to_at_0 (fun w => surface_area 1 w 2) 0 /\
     tends_to_at_0 (fun w => edge_length 1 w 2) (2 * PI * 1)).
Proof.
  intros [_ Hclaim].
  pose proof PI_RGT_0 as Hpi.
  destruct (Hclaim PI Hpi) as (d1 & Hd1 & H1).
  destruct (edge_length_limit 1 2 ltac:(lra) ltac:(lia) PI Hpi) as (d2 & Hd2 & H2).
  set (w := Rmin d1 d2 / 2).
  assert (Hw : 0 < w < d1 /\ 0 < w < d2).
  { subst w. pose proof (Rmin_l d1 d2). pose proof (Rmin_r d1 d2).
    assert (0 < Rmin d1 d2) by (apply Rmin_glb_lt; assumption). lra. }
  destruct (H1 w (proj1 Hw)) as (y1 & E1 & B1).
  destruct (H2 w (proj2 Hw)) as (y2 & E2 & B2).
  rewrite E1 in E2. injection E2 as <-.
  change (IZR (2 - 1)) with 1 in B2.
  apply Rabs_def2 in B1. apply Rabs_def2 in B2. lra.
Qed.

(** C8.  For valid parameters [u] and [v] have length [n], [u] runs
    from [0] to [2 pi] in equal steps of [2 pi / (n - 1)], [v] runs from
    [- w / 2] to [w / 2], and the grids [U], [V], [X], [Y], [Z] all have
    shape [n * n]. *)
Theorem grid_shapes_and_endpoints (R w : float) (n : Z) :
  valid R w n -> grid_invariants R w n.
Proof.
  intros (HR & Hw & Hn).
  destruct (samples_length n w) as [Lu Lv].
  exists (instance R w n (u_samples n) (v_samples w n)).
  do 3 eexists. split; [apply init_valid; exact Hn|].
  split; [reflexivity|].
  cbv zeta. cbn [instance self_u self_v self_U self_V].
  assert (Hshape : forall f, shape (grid (u_samples n) (v_samples w n) f)
                               (Z.to_nat n) (Z.to_nat n)).
  { intros f. pose proof (grid_shape (u_samples n) (v_samples w n) f) as H.
    rewrite Lu, Lv in H. exact H. }
  split; [exact Lu|]. split; [exact Lv|].
  split; [rewrite u_samples_nth by lia; apply sample_first|].
  split; [rewrite u_samples_nth by lia; apply sample_last; exact Hn|].
  split.
  { intros i Hi. rewrite !u_samples_nth by lia. unfold u_at.
    rewrite sample_step by exact Hn. f_equal. ring. }
  split; [rewrite v_samples_nth by lia; apply sample_first|].
  split; [rewrite v_samples_nth by lia; apply sample_last; exact Hn|].
  repeat split; apply Hshape.
Qed.

Lemma grid_shapes_and_endpoints_witness :
  valid 1 (1 / 2) 2 /\ grid_invariants 1 (1 / 2) 2.
Proof.
  split; [exact valid_example|].
  exact (grid_shapes_and_endpoints 1 (1 / 2) 2 valid_example).
Defined.

(** C9.  On a validly constructed model, every call of
    [compute_surface_area] returns one and the same value, every call of
    [compute_edge_length] returns one and the same value, in whatever
    order and number the calls come, and the object, with all its
    attributes, is the same after the calls as before. *)
Theorem queries_idempotent_and_pure (R w : float) (n : Z) :
  valid R w n -> queries_are_pure R w n.
Proof.
  intros (HR & Hw & Hn).
  exists (instance R w n (u_samples n) (v_samples w n)),
         (riemann_area R w n), (riemann_length R w n).
  split; [apply init_valid; exact Hn|].
  induction qs as [|q qs IH]; [reflexivity|].
  cbn [run_queries List.map].
  destruct q; cbn [call].
  - rewrite surface_area_valid by exact Hn. rewrite IH. reflexivity.
  - rewrite edge_length_valid by exact Hn. rewrite IH. reflexivity.
Qed.

Lemma queries_idempotent_and_pure_witness :
  valid 1 (1 / 2) 2 /\ queries_are_pure 1 (1 / 2) 2.
Proof.
  split; [exact valid_example|].
  exact (queries_idempotent_and_pure 1 (1 / 2) 2 valid_example).
Defined.

(** C10.  The constructor validates nothing: for every [R], every [w]
    and every [n >= 0] it returns an object; when [n < 2] the failure
    comes with the first query, as an [IndexError] for index [1] on the
    [n] samples of [u], and not as an [InvalidParameter] error of the
    constructor. *)
Theorem init_no_validation (R w : float) (n : Z) :
  (0 <= n)%Z -> constructor_does_not_validate R w n.
Proof.
  intros Hn.
  destruct (init_returns R w n Hn) as (us & vs & Hinit & Lu & Lv).
  exists (instance R w n us vs). split; [exact Hinit|].
  intros Hsmall. apply short_instance_raises; assumption.
Qed.

Lemma init_no_validation_witness :
  (0 <= 1)%Z /\ constructor_does_not_validate (-3) 0 1.
Proof.
  split; [lia|]. apply (init_no_validation (-3) 0 1). lia.
Defined.


(** * Further properties of the class *)

(** ** Construction *)

(** X1.  For every radius, every width and every count [n >= 0] the
    constructor hands out an object that stores the three parameters as
    given, has its mesh set, has [n] samples in [u] and in [v], and
    whose grids [U], [V], [X], [Y], [Z] all have [n] rows of [n]
    entries. *)
Theorem init_establishes_invariant (R w : float) (n : Z) :
  (0 <= n)%Z -> construction_invariant R w n.
Proof.
  intros Hn.
  destruct (init_returns R w n Hn) as (us & vs & Hinit & Lu & Lv).
  exists (instance R w n us vs). do 3 eexists.
  split; [exact Hinit|].
  cbn [instance self_R self_w self_n self_mesh self_u self_v self_U self_V].
  do 4 (split; [reflexivity|]). cbv zeta.
  assert (Hshape : forall f, shape (grid us vs f) (Z.to_nat n) (Z.to_nat n)).
  { intros f. pose proof (grid_shape us vs f) as H. rewrite Lu, Lv in H. exact H. }
  split; [exact Lu|]. split; [exact Lv|].
  repeat split; apply Hshape.
Qed.

Lemma init_establishes_invariant_witness :
  (0 <= 0)%Z /\ construction_invariant (-1) 0 0.
Proof.
  split; [lia|]. apply (init_establishes_invariant (-1) 0 0). lia.
Defined.




Lemma sample_increasing n a b i j :
  (2 <= n)%Z -> a < b -> (i < j)%nat -> sample a b n i < sample a b n j.
Proof.
  intros Hn Hab Hij. unfold sample.
  assert (Hd : 0 < IZR (n - 1)) by (apply IZR_lt; lia).
  assert (Hstep : 0 < (b - a) / IZR (n - 1)) by (apply Rdiv_lt_0_compat; lra).
  apply lt_INR in Hij. nra.
Qed.

(** X3.  For [n >= 2] and [w > 0] the samples of a constructed object
    increase strictly: [u[i] < u[j]] and [v[i] < v[j]] whenever
    [i < j < n]. *)
Theorem samples_strictly_increasing (R w : float) (n : Z) :
  (2 <= n)%Z -> 0 < w -> samples_increase R w n.
Proof.
  intros Hn Hw.
  exists (instance R w n (u_samples n) (v_samples w n)).
  split; [apply init_valid; exact Hn|].
  intros i j Hij Hj. cbn [instance self_u self_v].
  rewrite !u_samples_nth, !v_samples_nth by lia.
  pose proof PI_RGT_0 as Hpi.
  split; apply sample_increasing; try assumption; lra.
Qed.

Lemma samples_strictly_increasing_witness :
  (2 <= 4)%Z /\ 0 < 1 / 2 /\ samples_increase 1 (1 / 2) 4.
Proof.
  split; [lia|]. split; [lra|].
  apply (samples_strictly_increasing 1 (1 / 2) 4); [lia|lra].
Defined.


(** ** The shape of the mesh *)

Lemma half_angle_turn u : (u + 2 * PI) / 2 = u / 2 + PI.
Proof. field. Qed.

Lemma cos_turn u : cos (u + 2 * PI) = cos u.
Proof. rewrite cos_plus, cos_2PI, sin_2PI. ring. Qed.

Lemma sin_turn u : sin (u + 2 * PI) = sin u.
Proof. rewrite sin_plus, cos_2PI, sin_2PI. ring. Qed.

Lemma position_turn R u v : position R (u + 2 * PI) v = position R u (- v).
Proof.
  unfold position. rewrite half_angle_turn, neg_cos, neg_sin, cos_turn, sin_turn.
  f_equal; [f_equal|]; ring.
Qed.

(** X4.  The position function of [_generate_mesh] satisfies
    [P(u + 2 pi, v) = P(u, - v)] and [P(u + 4 pi, v) = P(u, v)] for all
    [R], [u], [v]: one turn lands on the opposite side of the strip, two
    turns close up. *)
Theorem position_half_twist : half_twist.
Proof.
  intros R u v. split; [apply position_turn|].
  replace (u + 4 * PI) with (u + 2 * PI + 2 * PI) by ring.
  rewrite !position_turn. f_equal. ring.
Qed.

Lemma cos_reflect u : cos (2 * PI - u) = cos u.
Proof. rewrite cos_minus, cos_2PI, sin_2PI. ring. Qed.

Lemma sin_reflect u : sin (2 * PI - u) = - sin u.
Proof. rewrite sin_minus, cos_2PI, sin_2PI. ring. Qed.

Lemma cos_half_reflect u : cos ((2 * PI - u) / 2) = - cos (u / 2).
Proof.
  replace ((2 * PI - u) / 2) with (PI - u / 2) by field.
  rewrite cos_minus, cos_PI, sin_PI. ring.
Qed.

Lemma sin_half_reflect u : sin ((2 * PI - u) / 2) = sin (u / 2).
Proof.
  replace ((2 * PI - u) / 2) with (PI - u / 2) by field.
  rewrite sin_minus, cos_PI, sin_PI. ring.
Qed.

Lemma position_reflect R u v :
  position R (2 * PI - u) (- v) =
  (vx (position R u v), - vy (position R u v), - vz (position R u v)).
Proof.
  unfold position, vx, vy, vz. cbn [fst snd].
  rewrite cos_half_reflect, sin_half_reflect, cos_reflect, sin_reflect.
  f_equal; [f_equal|]; ring.
Qed.

Lemma sample_reflect n a b i :
  (2 <= n)%Z -> (i < Z.to_nat n)%nat ->
  sample a b n (Z.to_nat n - 1 - i) = a + b - sample a b n i.
Proof.
  intros Hn Hi. unfold sample.
  assert (Hd : 0 < IZR (n - 1)) by (apply IZR_lt; lia).
  rewrite minus_INR by lia. rewrite (INR_last n Hn). field. lra.
Qed.

Lemma u_at_reflect n i :
  (2 <= n)%Z -> (i < Z.to_nat n)%nat ->
  u_at n (Z.to_nat n - 1 - i) = 2 * PI - u_at n i.
Proof.
  intros Hn Hi. unfold u_at. rewrite sample_reflect by assumption. ring.
Qed.

Lemma v_at_reflect w n j :
  (2 <= n)%Z -> (j < Z.to_nat n)%nat ->
  v_at w n (Z.to_nat n - 1 - j) = - v_at w n j.
Proof.
  intros Hn Hj. unfold v_at. rewrite sample_reflect by assumption. field.
Qed.

(** X5.  For [n >= 2] (any radius and width) the stored mesh has the
    half-turn symmetry of the strip: the entry at row [n-1-j], column
    [n-1-i] has the same [X] and the opposite [Y] and [Z] as the entry
    at row [j], column [i]. *)
Theorem mesh_half_turn_symmetry (R w : float) (n : Z) :
  (2 <= n)%Z -> mesh_has_half_turn_symmetry R w n.
Proof.
  intros Hn.
  exists (instance R w n (u_samples n) (v_samples w n)).
  do 3 eexists. split; [apply init_valid; exact Hn|].
  split; [reflexivity|].
  destruct (samples_length n w) as [Lu Lv].
  cbv zeta. intros i j Hi Hj.
  rewrite !grid_entry by lia.
  rewrite !u_samples_nth, !v_samples_nth by lia.
  rewrite u_at_reflect, v_at_reflect by assumption.
  rewrite position_reflect. repeat split; reflexivity.
Qed.

Lemma mesh_half_turn_symmetry_witness :
  (2 <= 3)%Z /\ mesh_has_half_turn_symmetry 1 (1 / 2) 3.
Proof.
  split; [lia|]. apply (mesh_half_turn_symmetry 1 (1 / 2) 3). lia.
Defined.

Lemma Rabs_le_bounds x a : Rabs x <= a -> - a <= x <= a.
Proof. unfold Rabs. destruct (Rcase_abs x); lra. Qed.

Lemma position_radius R u v :
  0 <= R + v * cos (u / 2) ->
  sqrt (vx (position R u v) ^ 2 + vy (position R u v) ^ 2) = R + v * cos (u / 2).
Proof.
  intros Hpos. unfold position, vx, vy. cbn [fst snd].
  replace (((R + v * cos (u / 2)) * cos u) ^ 2 + ((R + v * cos (u / 2)) * sin u) ^ 2)
    with ((R + v * cos (u / 2)) ^ 2 * (sin u * sin u + cos u * cos u)) by ring.
  rewrite sin_cos_sq, Rmult_1_r, <- Rsqr_pow2. apply sqrt_Rsqr. exact Hpos.
Qed.

Lemma position_offset R u v :
  0 <= R + v * cos (u / 2) ->
  (sqrt (vx (position R u v) ^ 2 + vy (position R u v) ^ 2) - R) ^ 2 +
  vz (position R u v) ^ 2 = v ^ 2.
Proof.
  intros Hpos. rewrite position_radius by exact Hpos.
  unfold position, vz. cbn [snd].
  replace ((R + v * cos (u / 2) - R) ^ 2 + (v * sin (u / 2)) ^ 2)
    with (v ^ 2 * (sin (u / 2) * sin (u / 2) + cos (u / 2) * cos (u / 2))) by ring.
  rewrite sin_cos_sq. ring.
Qed.

(** X6.  For valid parameters with [w / 2 <= R], every vertex
    [(X, Y, Z)] of the stored mesh satisfies
    [(sqrt (X^2 + Y^2) - R)^2 + Z^2 = v_j^2 <= (w/2)^2]: it lies at
    distance [|v_j|], at most half the width, from the centre circle. *)
Theorem mesh_within_half_width (R w : float) (n : Z) :
  valid R w n -> w / 2 <= R -> mesh_hugs_centre_circle R w n.
Proof.
  intros (HR & Hw & Hn) HwR.
  exists (instance R w n (u_samples n) (v_samples w n)).
  do 3 eexists. split; [apply init_valid; exact Hn|].
  split; [reflexivity|].
  destruct (samples_length n w) as [Lu Lv].
  cbv zeta. cbn [instance self_v]. intros i j Hi Hj.
  rewrite !grid_entry by lia.
  rewrite !u_samples_nth, !v_samples_nth by lia.
  pose proof (v_at_bound n Hn w j ltac:(lra) Hj) as Hv.
  assert (Hc : Rabs (v_at w n j * cos (u_at n i / 2)) <= w / 2).
  { rewrite Rabs_mult. pose proof (Rabs_cos_le_1 (u_at n i / 2)).
    pose proof (Rabs_pos (v_at w n j)). pose proof (Rabs_pos (cos (u_at n i / 2))). nra. }
  apply Rabs_le_bounds in Hc.
  split.
  - apply position_offset. lra.
  - apply Rabs_le_bounds in Hv. nra.
Qed.

Lemma mesh_within_half_width_witness :
  valid 1 (1 / 2) 2 /\ 1 / 2 / 2 <= 1 /\ mesh_hugs_centre_circle 1 (1 / 2) 2.
Proof.
  split; [exact valid_example|]. split; [lra|].
  apply (mesh_within_half_width 1 (1 / 2) 2); [exact valid_example|lra].
Defined.

(** X7.  With an odd count [n = 2 m + 1 >= 3] (any radius and width)
    the middle width sample [v[m]] is [0] and row [m] of the mesh is the
    circle of radius [R] in the plane [z = 0]:
    [(R cos u_i, R sin u_i, 0)]. *)
Theorem mesh_middle_row_is_circle (R w : float) (n : Z) (m : nat) :
  (1 <= m)%nat -> n = (2 * Z.of_nat m + 1)%Z -> mesh_midline_is_circle R w n m.
Proof.
  intros Hm En.
  assert (Hn : (2 <= n)%Z) by lia.
  exists (instance R w n (u_samples n) (v_samples w n)).
  do 3 eexists. split; [apply init_valid; exact Hn|].
  split; [reflexivity|].
  destruct (samples_length n w) as [Lu Lv].
  cbn [instance self_u self_v].
  assert (Hmid : nth m (v_samples w n) 0 = 0).
  { rewrite v_samples_nth by lia. unfold v_at, sample.
    replace (IZR (n - 1)) with (2 * INR m).
    - field. apply not_0_INR. lia.
    - rewrite En, INR_IZR_INZ, <- mult_IZR. f_equal. lia. }
  split; [exact Hmid|].
  intros i Hi. cbv zeta.
  rewrite !grid_entry by lia. rewrite Hmid.
  unfold position, vx, vy, vz. cbn [fst snd].
  repeat split; ring.
Qed.

Lemma mesh_middle_row_is_circle_witness :
  (1 <= 1)%nat /\ 3%Z = (2 * Z.of_nat 1 + 1)%Z /\ mesh_midline_is_circle 1 (1 / 2) 3 1.
Proof.
  split; [lia|]. split; [reflexivity|].
  apply (mesh_middle_row_is_circle 1 (1 / 2) 3 1); [lia|reflexivity].
Defined.


(** ** The two numbers *)

Lemma dP_dv_unit u : dot (dP_dv u) (dP_dv u) = 1.
Proof.
  unfold dot, dP_dv, vx, vy, vz. cbn [fst snd].
  replace (cos (u / 2) * cos u * (cos (u / 2) * cos u) +
           cos (u / 2) * sin u * (cos (u / 2) * sin u) +
           sin (u / 2) * sin (u / 2))
    with (cos (u / 2) * cos (u / 2) * (sin u * sin u + cos u * cos u) +
          sin (u / 2) * sin (u / 2)) by ring.
  rewrite sin_cos_sq, Rmult_1_r, Rplus_comm. apply sin_cos_sq.
Qed.

Lemma dP_du_dP_dv_orthogonal R u v : dot (dP_du R u v) (dP_dv u) = 0.
Proof.
  unfold dot, dP_du, dP_dv, vx, vy, vz. cbn [fst snd].
  match goal with |- ?lhs = _ =>
    replace lhs
      with (v / 2 * sin (u / 2) * cos (u / 2) * (1 - (sin u * sin u + cos u * cos u)))
      by ring
  end.
  rewrite sin_cos_sq. ring.
Qed.

Lemma area_element_is_tangent_length R u v :
  norm3 (cross (dP_du R u v) (dP_dv u)) = norm3 (dP_du R u v).
Proof.
  change (area_element R u v = norm3 (dP_du R u v)).
  rewrite area_element_closed.
  unfold norm3, dP_du, vx, vy, vz. cbn [fst snd]. f_equal. symmetry.
  apply tangent_norm_sq; apply sin_cos_sq.
Qed.

(** X8.  For [n >= 2] [compute_surface_area] returns the sum over the
    grid of [sqrt ((R + v cos (u/2))^2 + (v/2)^2)] times
    [(2 pi / (n-1)) * (w / (n-1))]: the tangent along [v] is a unit
    vector orthogonal to the tangent along [u], so the norm of the cross
    product is the length of the tangent along [u]. *)
Theorem surface_area_closed_form (R w : float) (n : Z) :
  (2 <= n)%Z -> area_closed_form R w n /\ tangent_frame.
Proof.
  intros Hn. split.
  - unfold area_closed_form. rewrite surface_area_eval by exact Hn. f_equal.
    unfold riemann_area. rewrite (u_step n Hn), (v_step n Hn). do 2 f_equal.
    apply big_sum_ext. intros j _. apply big_sum_ext. intros i _.
    apply area_element_closed.
  - intros R' u v. split; [apply dP_dv_unit|].
    split; [apply dP_du_dP_dv_orthogonal|apply area_element_is_tangent_length].
Qed.

Lemma surface_area_closed_form_witness :
  (2 <= 2)%Z /\ area_closed_form 1 (1 / 2) 2 /\ tangent_frame.
Proof.
  split; [lia|]. apply (surface_area_closed_form 1 (1 / 2) 2). lia.
Defined.

Lemma area_element_near_R R u v :
  0 < R -> Rabs (area_element R u v - R) <= 3 / 2 * Rabs v.
Proof.
  intros HR. rewrite area_element_closed.
  pose proof (sqrt_sum_sq_bounds (R + v * cos (u / 2)) (v / 2)) as [Hlo Hup].
  pose proof (offset_bound R v (cos (u / 2)) HR (Rabs_cos_le_1 _)) as [Hb Ha].
  assert (Hh : Rabs (v / 2) = Rabs v / 2).
  { unfold Rdiv. rewrite Rabs_mult, (Rabs_pos_eq (/ 2)) by lra. reflexivity. }
  apply Rabs_le. lra.
Qed.

Lemma riemann_area_near R w n :
  0 < R -> 0 <= w -> (2 <= n)%Z ->
  Rabs (riemann_area R w n - 2 * PI * R * w * (IZR n / IZR (n - 1)) ^ 2) <=
  3 / 4 * w * (2 * PI * w * (IZR n / IZR (n - 1)) ^ 2).
Proof.
  intros HR Hw Hn.
  assert (Hd : 0 < IZR (n - 1)) by (apply IZR_lt; lia).
  pose proof PI_RGT_0 as Hpi.
  unfold riemann_area. rewrite (u_step n Hn), (v_step n Hn).
  set (N := Z.to_nat n).
  set (S2 := big_sum N (fun j => big_sum N (fun i => area_element R (u_at n i) (v_at w n j)))).
  set (c := 2 * PI / IZR (n - 1) * (w / IZR (n - 1))).
  assert (Hc : 0 <= c).
  { subst c. apply Rmult_le_pos.
    - left. apply Rdiv_lt_0_compat; lra.
    - apply Rmult_le_pos; [exact Hw|]. left. apply Rinv_0_lt_compat. exact Hd. }
  assert (Hsum : Rabs (S2 - IZR n * (IZR n * R)) <= IZR n * (IZR n * (3 / 4 * w))).
  { subst S2. rewrite <- (INR_count n Hn). fold N.
    rewrite <- !big_sum_const, big_sum_minus.
    eapply Rle_trans; [apply big_sum_Rabs|]. apply big_sum_le. intros j Hj.
    rewrite big_sum_minus.
    eapply Rle_trans; [apply big_sum_Rabs|]. apply big_sum_le. intros i _.
    eapply Rle_trans; [apply area_element_near_R; exact HR|].
    pose proof (v_at_bound n Hn w j Hw Hj). lra. }
  replace (S2 * (2 * PI / IZR (n - 1)) * (w / IZR (n - 1)) -
           2 * PI * R * w * (IZR n / IZR (n - 1)) ^ 2)
    with ((S2 - IZR n * (IZR n * R)) * c) by (subst c; field; lra).
  replace (3 / 4 * w * (2 * PI * w * (IZR n / IZR (n - 1)) ^ 2))
    with (IZR n * (IZR n * (3 / 4 * w)) * c) by (subst c; field; lra).
  rewrite Rabs_mult, (Rabs_pos_eq c) by exact Hc.
  apply Rmult_le_compat_r; assumption.
Qed.

(** X9.  For [R > 0], [w >= 0] and [n >= 2] the surface area differs
    from [2 pi R w (n/(n-1))^2], the area of the flat band counted with
    [n] samples per axis, by at most [3/4 w] times [2 pi w (n/(n-1))^2]. *)
Theorem surface_area_near_band (R w : float) (n : Z) :
  0 < R -> 0 <= w -> (2 <= n)%Z -> area_near_band R w n.
Proof.
  intros HR Hw Hn. exists (riemann_area R w n).
  split; [apply surface_area_eval; exact Hn|].
  apply riemann_area_near; assumption.
Qed.

Lemma surface_area_near_band_witness :
  0 < 4 /\ 0 <= 2 / 5 /\ (2 <= 100)%Z /\ area_near_band 4 (2 / 5) 100.
Proof.
  split; [lra|]. split; [lra|]. split; [lia|].
  apply (surface_area_near_band 4 (2 / 5) 100); [lra|lra|lia].
Defined.

(** X10.  For [R > 0] and [n >= 2] (any width, of either sign) the
    edge length differs from [2 pi R n/(n-1)] by at most [3/4 |w|] times
    [2 pi n/(n-1)]. *)
Theorem edge_length_near_circle (R w : float) (n : Z) :
  0 < R -> (2 <= n)%Z -> length_near_circle R w n.
Proof.
  intros HR Hn. exists (riemann_length R w n).
  split; [apply edge_length_eval; exact Hn|].
  eapply Rle_trans; [apply riemann_length_near; assumption|].
  assert (Hd : 0 < IZR (n - 1)) by (apply IZR_lt; lia).
  right. field. lra.
Qed.

Lemma edge_length_near_circle_witness :
  0 < 4 /\ (2 <= 100)%Z /\ length_near_circle 4 (2 / 5) 100.
Proof.
  split; [lra|]. split; [lia|].
  apply (edge_length_near_circle 4 (2 / 5) 100); [lra|lia].
Defined.

Lemma area_element_nonneg R u v : 0 <= area_element R u v.
Proof. rewrite area_element_closed. apply sqrt_pos. Qed.

Lemma edge_speed_nonneg R w u : 0 <= edge_speed R w u.
Proof. rewrite edge_speed_closed. apply sqrt_pos. Qed.

Lemma big_sum_nonneg n f : (forall i, (i < n)%nat -> 0 <= f i) -> 0 <= big_sum n f.
Proof.
  intros H. replace 0 with (big_sum n (fun _ => 0)) by (rewrite big_sum_const; ring).
  apply big_sum_le. exact H.
Qed.

Lemma edge_speed_no_width R u : edge_speed R 0 u = Rabs R.
Proof.
  rewrite edge_speed_closed.
  replace ((R + 0 / 2 * cos (u / 2)) ^ 2 + (0 / 2 / 2) ^ 2) with (Rsqr R)
    by (unfold Rsqr; field).
  apply sqrt_Rsqr_abs.
Qed.

(** X11.  For [n >= 2] and any radius, a strip of width [0] has
    surface area exactly [0] and edge length exactly
    [2 pi |R| n/(n-1)]. *)
Theorem zero_width (R : float) (n : Z) :
  (2 <= n)%Z -> zero_width_values R n.
Proof.
  intros Hn.
  assert (Hd : 0 < IZR (n - 1)) by (apply IZR_lt; lia).
  split.
  - rewrite surface_area_eval by exact Hn. f_equal.
    unfold riemann_area. rewrite (v_step n Hn). unfold Rdiv. ring.
  - rewrite edge_length_eval by exact Hn. f_equal.
    unfold riemann_length. rewrite (u_step n Hn).
    rewrite (big_sum_ext _ _ (fun _ => Rabs R)) by (intros; apply edge_speed_no_width).
    rewrite big_sum_const, (INR_count n Hn). field. lra.
Qed.

Lemma zero_width_witness : (2 <= 5)%Z /\ zero_width_values (-3) 5.
Proof.
  split; [lia|]. apply (zero_width (-3) 5). lia.
Defined.

Lemma big_sum_rev n f : big_sum n f = big_sum n (fun i => f (n - 1 - i)%nat).
Proof.
  induction n as [|n IH]; [reflexivity|].
  rewrite (big_sum_shift n (fun i => f (S n - 1 - i)%nat)).
  cbn [big_sum]. rewrite IH.
  replace (S n - 1 - 0)%nat with n by lia.
  rewrite Rplus_comm. f_equal.
  apply big_sum_ext. intros i Hi. f_equal. lia.
Qed.

Lemma v_at_neg n w j : (2 <= n)%Z -> v_at (- w) n j = - v_at w n j.
Proof.
  intros Hn. replace (- w) with (-1 * w) by ring.
  rewrite (v_at_scale n Hn). ring.
Qed.

Lemma area_element_flip R u v :
  area_element R u (- v) = area_element R (2 * PI - u) v.
Proof.
  rewrite !area_element_closed, cos_half_reflect. f_equal. field.
Qed.

Lemma edge_speed_flip R w u :
  edge_speed R (- w) u = edge_speed R w (2 * PI - u).
Proof.
  rewrite !edge_speed_closed, cos_half_reflect. f_equal. field.
Qed.

Lemma riemann_area_neg R w n :
  (2 <= n)%Z -> riemann_area R (- w) n = - riemann_area R w n.
Proof.
  intros Hn. unfold riemann_area. rewrite !(v_step n Hn).
  rewrite (big_sum_ext _ _
             (fun j => big_sum (Z.to_nat n)
                         (fun i => area_element R (u_at n i) (v_at w n j)))).
  - unfold Rdiv. ring.
  - intros j _.
    rewrite (big_sum_rev _ (fun i => area_element R (u_at n i) (v_at w n j))).
    apply big_sum_ext. intros i Hi.
    rewrite (v_at_neg n w j Hn), area_element_flip, <- u_at_reflect by assumption.
    reflexivity.
Qed.

Lemma riemann_length_neg R w n :
  (2 <= n)%Z -> riemann_length R (- w) n = riemann_length R w n.
Proof.
  intros Hn. unfold riemann_length. f_equal.
  rewrite (big_sum_rev _ (fun i => edge_speed R w (u_at n i))).
  apply big_sum_ext. intros i Hi.
  rewrite edge_speed_flip, <- u_at_reflect by assumption. reflexivity.
Qed.

(** X12.  For [n >= 2] (any radius and width), building the strip with
    the width negated negates the surface area and leaves the edge
    length as it was: the edge at [v = - w/2] has the computed length of
    the edge at [v = + w/2], and a negative width is answered with a
    negative area. *)
Theorem negated_width (R w : float) (n : Z) :
  (2 <= n)%Z -> width_sign_flip R w n.
Proof.
  intros Hn. exists (riemann_area R w n), (riemann_length R w n).
  rewrite !surface_area_eval, !edge_length_eval by exact Hn.
  rewrite riemann_area_neg, riemann_length_neg by exact Hn.
  repeat split; reflexivity.
Qed.

Lemma negated_width_witness : (2 <= 3)%Z /\ width_sign_flip 1 (1 / 2) 3.
Proof.
  split; [lia|]. apply (negated_width 1 (1 / 2) 3). lia.
Defined.

(** X13.  For [n >= 2] and [w >= 0] (any radius, also zero or
    negative) both queries return a number that is not negative. *)
Theorem results_are_nonnegative (R w : float) (n : Z) :
  (2 <= n)%Z -> 0 <= w -> results_nonnegative R w n.
Proof.
  intros Hn Hw.
  assert (Hd : 0 < IZR (n - 1)) by (apply IZR_lt; lia).
  pose proof (u_step_pos n Hn) as Hdu.
  exists (riemann_area R w n), (riemann_length R w n).
  split; [apply surface_area_eval; exact Hn|]. split.
  - unfold riemann_area. rewrite (v_step n Hn).
    apply Rmult_le_pos; [apply Rmult_le_pos|].
    + apply big_sum_nonneg. intros j _. apply big_sum_nonneg. intros i _.
      apply area_element_nonneg.
    + lra.
    + apply Rmult_le_pos; [exact Hw|]. left. apply Rinv_0_lt_compat. exact Hd.
  - split; [apply edge_length_eval; exact Hn|].
    unfold riemann_length. apply Rmult_le_pos; [|lra].
    apply big_sum_nonneg. intros i _. apply edge_speed_nonneg.
Qed.

Lemma results_are_nonnegative_witness :
  (2 <= 2)%Z /\ 0 <= 1 /\ results_nonnegative (-2) 1 2.
Proof.
  split; [lia|]. split; [lra|].
  apply (results_are_nonnegative (-2) 1 2); [lia|lra].
Defined.

(** X14.  For [n >= 2] the number [compute_edge_length] returns is the
    sum of the integrand of [compute_surface_area] along the last row of
    the grid, the row of [v[n-1] = w/2], times [du]. *)
Theorem edge_length_is_last_row (R w : float) (n : Z) :
  (2 <= n)%Z -> length_is_last_row_of_area R w n.
Proof.
  intros Hn.
  destruct (samples_length n w) as [Lu Lv].
  exists (instance R w n (u_samples n) (v_samples w n)).
  split; [apply init_valid; exact Hn|].
  cbv zeta. rewrite edge_length_instance by lia.
  cbn [fst instance self_u self_v].
  rewrite sum_map_big_sum, Lu. do 2 f_equal.
  apply big_sum_ext. intros i Hi.
  rewrite (v_samples_nth w n (Z.to_nat n - 1)) by lia.
  unfold v_at. rewrite (sample_last n Hn).
  unfold edge_speed. symmetry. apply area_element_is_tangent_length.
Qed.

Lemma edge_length_is_last_row_witness :
  (2 <= 3)%Z /\ length_is_last_row_of_area 1 (1 / 2) 3.
Proof.
  split; [lia|]. apply (edge_length_is_last_row 1 (1 / 2) 3). lia.
Defined.


(** ** Degenerate counts and factors *)

Lemma linspace_single a b : np.linspace a b 1 = Py.Ok [a].
Proof.
  unfold np.linspace. cbn. apply f_equal.
  apply (f_equal2 cons); [|reflexivity].
  change (INR 0 * (b - a) + a = a). cbn [INR]. ring.
Qed.

Lemma linspace_empty a b : np.linspace a b 0 = Py.Ok [].
Proof. reflexivity. Qed.

(** X15.  For every radius and width: with [n = 0] the constructor
    builds an object whose samples, grids and mesh are all empty; with
    [n = 1] the only samples are [u = 0] and [v = - w/2], and the mesh is
    the single point [(R - w/2, 0, 0)]. *)
Theorem degenerate_counts (R w : float) : degenerate_models R w.
Proof.
  split.
  - exists (instance R w 0 [] []).
    split; [apply init_instance; apply linspace_empty|].
    repeat split; reflexivity.
  - exists (instance R w 1 [0] [- w / 2]).
    split; [apply init_instance; apply linspace_single|].
    do 4 (split; [reflexivity|]).
    cbn [instance self_mesh grid List.map]. unfold position, vx, vy, vz. cbn [fst snd].
    replace (0 / 2) with 0 by field. rewrite cos_0, sin_0.
    replace ((R + - w / 2 * 1) * 1) with (R - w / 2) by field.
    replace ((R + - w / 2 * 1) * 0) with 0 by field.
    replace (- w / 2 * 0) with 0 by field.
    reflexivity.
Qed.

(** X16.  With [n = 0] or [n = 1], whatever queries are made and in
    whatever order, each of them raises [IndexError] for index [1] on
    [n] samples, and the object is left as it was: a failed query does
    not damage the model. *)
Theorem short_model_keeps_failing (R w : float) (n : Z) :
  (0 <= n < 2)%Z -> queries_keep_failing R w n.
Proof.
  intros [Hpos Hsmall].
  destruct (init_returns R w n Hpos) as (us & vs & Hinit & Lu & Lv).
  exists (instance R w n us vs). split; [exact Hinit|].
  destruct (short_instance_raises R w n us vs Hsmall Lu) as [Harea Hlen].
  induction qs as [|q qs IH]; [reflexivity|].
  cbn [run_queries List.map].
  destruct q; cbn [call]; [rewrite Harea|rewrite Hlen]; rewrite IH; reflexivity.
Qed.

Lemma short_model_keeps_failing_witness :
  (0 <= 1 < 2)%Z /\ queries_keep_failing 1 (1 / 2) 1.
Proof.
  split; [lia|]. apply (short_model_keeps_failing 1 (1 / 2) 1). lia.
Defined.

Lemma sqrt_scale_abs k x : sqrt (k ^ 2 * x) = Rabs k * sqrt x.
Proof.
  rewrite <- (sqrt_scale (Rabs k) x) by apply Rabs_pos.
  f_equal. f_equal. symmetry. apply pow2_abs.
Qed.

Lemma area_element_scale_abs k R u v :
  area_element (k * R) u (k * v) = Rabs k * area_element R u v.
Proof.
  rewrite !area_element_closed, <- sqrt_scale_abs. f_equal. field.
Qed.

Lemma edge_speed_scale_abs k R w u :
  edge_speed (k * R) (k * w) u = Rabs k * edge_speed R w u.
Proof.
  rewrite !edge_speed_closed, <- sqrt_scale_abs. f_equal. field.
Qed.

(** X17.  For [n >= 2] and a factor [k] of any sign (any radius and
    width), the model built with [(k R, k w, n)] has [k |k|] times the
    surface area and [|k|] times the edge length of the model built with
    [(R, w, n)]. *)
Theorem scaling_by_any_factor (k R w : float) (n : Z) :
  (2 <= n)%Z -> signed_scale_law k R w n.
Proof.
  intros Hn. exists (riemann_area R w n), (riemann_length R w n).
  rewrite !surface_area_eval, !edge_length_eval by exact Hn.
  do 2 (split; [reflexivity|]). split; f_equal.
  - unfold riemann_area. rewrite !(v_at_scale n Hn).
    rewrite (big_sum_ext _ _
               (fun j => Rabs k * big_sum (Z.to_nat n)
                                    (fun i => area_element R (u_at n i) (v_at w n j)))).
    + rewrite big_sum_scal. ring.
    + intros j _. rewrite <- big_sum_scal. apply big_sum_ext. intros i _.
      rewrite (v_at_scale n Hn). apply area_element_scale_abs.
  - unfold riemann_length.
    rewrite (big_sum_ext _ _ (fun i => Rabs k * edge_speed R w (u_at n i))).
    + rewrite big_sum_scal. ring.
    + intros i _. apply edge_speed_scale_abs.
Qed.

Lemma scaling_by_any_factor_witness :
  (2 <= 3)%Z /\ signed_scale_law (-2) 1 (1 / 2) 3.
Proof.
  split; [lia|]. apply (scaling_by_any_factor (-2) 1 (1 / 2) 3). lia.
Defined.
